(** * Sitemap crawler with phrase matching: a model of [main.py]

    The development embeds the functions of [main.py] and settles the
    properties stated about them.

    Modelling conventions.
    - A [string] stands for a Python [str] whose characters all have a
      code below 128 ([str.isascii]); the regular-expression engine works
      on its list of characters.  On these strings the classes [\w], [\d],
      [\s], [\b], [str.lower], IGNORECASE, [len] and slicing are as
      defined below.  On other strings Python classifies and folds by
      Unicode and counts characters, not bytes; they are outside the
      model, and every property that depends on a class, on the case or
      on a length is stated for strings that satisfy [isascii].
    - [re] is modelled by a backtracking matcher that lists, for a
      pattern and a position, the positions where a match may end, in the
      order in which the backtracking engine tries them.
    - The two Russian string literals of the source, the sentinel for an
      unknown date and the title of a page without one, are kept as their
      UTF-8 bytes; they are only compared and passed on.
    - The network, the XML parser and the HTML parser are outside the
      program: a response is given by its status and by what each parser
      makes of its body. *)

From Stdlib Require Import List Ascii String ZArith Bool Arith Lia.
From stdpp Require Import gmap strings.
Import ListNotations.

Local Open Scope string_scope.
Local Open Scope nat_scope.
Local Open Scope list_scope.

#[local] Set Warnings "-register-all".

(** ** Characters *)

Definition code (c : ascii) : nat := nat_of_ascii c.

Definition in_range (lo hi : nat) (c : ascii) : bool :=
  (lo <=? code c) && (code c <=? hi).

(** [\d] *)
Definition is_digit (c : ascii) : bool := in_range 48 57 c.

(** [\w]: letters, digits and the underscore. *)
Definition is_word (c : ascii) : bool :=
  is_digit c || in_range 65 90 c || in_range 97 122 c || (code c =? 95).

(** [\s]: tab, line feed, vertical tab, form feed, carriage return, the
    four separators 28..31 and the space. *)
Definition is_space (c : ascii) : bool :=
  in_range 9 13 c || in_range 28 32 c.

(** [str.lower] on one character. *)
Definition lower_char (c : ascii) : ascii :=
  if in_range 65 90 c then ascii_of_nat (code c + 32) else c.

Definition lower_chars (s : list ascii) : list ascii := map lower_char s.

(** [str.lower] *)
Definition lower (s : string) : string :=
  string_of_list_ascii (lower_chars (list_ascii_of_string s)).

(** [str.isascii]: every character has a code below 128. *)
Definition isascii (s : string) : bool :=
  forallb (fun c => code c <? 128) (list_ascii_of_string s).

(** ** Regular expressions

    Only the constructs that the patterns of [main.py] use. *)

Inductive regex : Type :=
| Eps                                  (* the empty pattern *)
| Chr (c : ascii)                      (* a literal character *)
| Cls (p : ascii -> bool)              (* a character class *)
| Cat (r1 r2 : regex)
| Alt (r1 r2 : regex)                  (* r1|r2 *)
| StarCls (p : ascii -> bool)          (* [class]*, greedy *)
| WordB                                (* \b *)
| Dollar                               (* $ *)
| NotBehind (p : ascii -> bool)        (* (?<!class) *)
| NotAhead (r : regex).                (* (?!r) *)

(** A position in the subject: the text before the cursor, nearest
    character first, and the text after it. *)
Definition cursor : Type := list ascii * list ascii.

Definition head_is_word (s : list ascii) : bool :=
  match s with c :: _ => is_word c | [] => false end.

Definition word_before (z : cursor) : bool := head_is_word (fst z).

Definition word_after (z : cursor) : bool := head_is_word (snd z).

(** [\b]: exactly one of the two neighbours is a word character. *)
Definition at_word_boundary (z : cursor) : bool :=
  xorb (word_before z) (word_after z).

Definition newline : ascii := ascii_of_nat 10.

(** [$] without MULTILINE: the end of the subject, or just before a line
    feed that ends it. *)
Definition at_dollar (z : cursor) : bool :=
  match snd z with
  | [] => true
  | [c] => Ascii.eqb c newline
  | _ => false
  end.

(** A literal matches itself; under IGNORECASE it matches up to case. *)
Definition chr_matches (ignorecase : bool) (c x : ascii) : bool :=
  if ignorecase then Ascii.eqb (lower_char c) (lower_char x) else Ascii.eqb c x.

(** Ends of [[class]*] from a position, longest first. *)
Fixpoint star_ends (p : ascii -> bool) (b s : list ascii) : list cursor :=
  match s with
  | c :: s' => if p c then star_ends p (c :: b) s' ++ [(b, s)] else [(b, s)]
  | [] => [(b, s)]
  end.

(** [ends ic r z]: where a match of [r] started at [z] may end, in the
    order of preference of the backtracking engine. *)
Fixpoint ends (ic : bool) (r : regex) (z : cursor) : list cursor :=
  match r with
  | Eps => [z]
  | Chr c =>
      match snd z with
      | x :: s' => if chr_matches ic c x then [(x :: fst z, s')] else []
      | [] => []
      end
  | Cls p =>
      match snd z with
      | x :: s' => if p x then [(x :: fst z, s')] else []
      | [] => []
      end
  | Cat r1 r2 => flat_map (ends ic r2) (ends ic r1 z)
  | Alt r1 r2 => ends ic r1 z ++ ends ic r2 z
  | StarCls p => star_ends p (fst z) (snd z)
  | WordB => if at_word_boundary z then [z] else []
  | Dollar => if at_dollar z then [z] else []
  | NotBehind p =>
      match fst z with
      | x :: _ => if p x then [] else [z]
      | [] => [z]
      end
  | NotAhead r' =>
      match ends ic r' z with
      | [] => [z]
      | _ :: _ => []
      end
  end.

(** Number of characters a match from a position with [s] ahead
    consumed when it ends at [z]. *)
Definition consumed (s : list ascii) (z : cursor) : nat :=
  length s - length (snd z).

(** [re.search]: the first position, from the left, with a match; the
    match is the one the engine prefers there.  The result is the text
    before the match (nearest character first), the match, and the rest. *)
Fixpoint search_from (ic : bool) (r : regex) (b s : list ascii)
  : option (list ascii * list ascii * list ascii) :=
  match ends ic r (b, s) with
  | z :: _ => Some (b, firstn (consumed s z) s, snd z)
  | [] =>
      match s with
      | [] => None
      | c :: s' => search_from ic r (c :: b) s'
      end
  end.

Definition re_search (ic : bool) (r : regex) (text : string)
  : option (list ascii * list ascii * list ascii) :=
  search_from ic r [] (list_ascii_of_string text).

(** The matches [findall] reports at one position, given the lengths of
    the possible matches there in order of preference.  An empty match
    is reported, and the scan then asks for a non-empty match at the same
    position (the engine's must-advance rule) before it moves on. *)
Definition matches_here (lens : list nat) : list nat :=
  match lens with
  | [] => []
  | O :: rest =>
      O :: match List.find (fun n => negb (n =? 0)) rest with
           | Some n => [n]
           | None => []
           end
  | n :: _ => [n]
  end.

(** [re.findall] for a pattern without groups: the matched strings,
    left to right, without overlap.  [skip] counts the characters of the
    last match that are still to be passed over. *)
Fixpoint findall_from (ic : bool) (r : regex) (skip : nat) (b s : list ascii)
  : list (list ascii) :=
  match skip with
  | S n =>
      match s with
      | c :: s' => findall_from ic r n (c :: b) s'
      | [] => []
      end
  | O =>
      let here := matches_here (map (consumed s) (ends ic r (b, s))) in
      map (fun n => firstn n s) here ++
      match s with
      | [] => []
      | c :: s' => findall_from ic r (pred (List.last here 0)) (c :: b) s'
      end
  end.

Definition re_findall (ic : bool) (r : regex) (text : string) : list (list ascii) :=
  findall_from ic r 0 [] (list_ascii_of_string text).

(** [re.escape(phrase)] as a pattern: every character of the phrase
    stands for itself. *)
Definition escape (phrase : list ascii) : regex :=
  fold_right (fun c r => Cat (Chr c) r) Eps phrase.

(** ** [count_phrase_occurrences] *)

(** The class that may trail the phrase: white space, the punctuation
    marks [. , ! ? ; : ' )] and the double quote.  The source also lists
    the right double quotation mark U+201D, which no string that
    satisfies [isascii] contains. *)
Definition double_quote : ascii := ascii_of_nat 34.

Definition trail_class (c : ascii) : bool :=
  is_space c
  || existsb (Ascii.eqb c) (double_quote :: list_ascii_of_string ".,!?;:')").

(** The pattern: [\b], the escaped phrase, any number of trailing
    characters of the class, [\b]. *)
Definition count_pattern (phrase : string) : regex :=
  Cat WordB (Cat (escape (list_ascii_of_string phrase))
                 (Cat (StarCls trail_class) WordB)).

Definition count_phrase_occurrences (text phrase : string) : nat :=
  let phrase := lower phrase in
  length (re_findall false (count_pattern phrase) (lower text)).

(** ** The matcher of [extract_text_from_url] *)

(** The pattern compiled for a page: not preceded by a word character,
    the escaped lower-case phrase, not followed by (a word character or
    [$]).  It is compiled with IGNORECASE. *)
Definition phrase_pattern (phrase : string) : regex :=
  Cat (NotBehind is_word)
      (Cat (escape (list_ascii_of_string (lower phrase)))
           (NotAhead (Alt (Cls is_word) Dollar))).

Definition page_occurrences (article_text phrase : string) : nat :=
  length (re_findall true (phrase_pattern phrase) article_text).

(** ** Documents *)

(** An element as [xml.etree.ElementTree] gives it.  The [text] of an
    element is a string, or [None] for an element without text such as
    an empty [loc]. *)
Inductive element : Type :=
| Element (tag : string) (text : option string) (children : list element).

Definition tag_of (e : element) : string := let 'Element t _ _ := e in t.
Definition text_of (e : element) : option string := let 'Element _ x _ := e in x.
Definition children_of (e : element) : list element := let 'Element _ _ c := e in c.

(** [root.findall("a/b")]: the children tagged [b] of the children of
    the root tagged [a], in document order. *)
Definition findall_path (root : element) (a b : string) : list element :=
  flat_map (fun c => List.filter (fun d => String.eqb (tag_of d) b) (children_of c))
           (List.filter (fun c => String.eqb (tag_of c) a) (children_of root)).

Definition namespace : string := "{http://www.sitemaps.org/schemas/sitemap/0.9}".

(** The links of a sitemap document: the [text] of its [url/loc]
    entries, or, when there are none, of its [sitemap/loc] entries.  The
    link of an entry without text is [None]. *)
Definition sitemap_links (tree : element) : list (option string) :=
  let leaves := findall_path tree (String.append namespace "url") (String.append namespace "loc") in
  map text_of
      match leaves with
      | _ :: _ => leaves
      | [] => findall_path tree (String.append namespace "sitemap") (String.append namespace "loc")
      end.

(** What [extract_text_from_url] and [extract_date] ask of a parsed page.
    - [soup_sections]: the result of [get_text(separator=" ", strip=True)]
      on each element of [find_all(class_=target_classes)], in document
      order;
    - [soup_title]: [soup.title], and inside it [soup.title.string];
    - [meta_published_time], [meta_name_date]: the first [meta] element
      with [property="article:published_time"], respectively
      [name="date"], and inside it the value of [get("content")]. *)
Record soup : Type := {
  soup_sections : list string;
  soup_title : option (option string);
  meta_published_time : option (option string);
  meta_name_date : option (option string)
}.

(** ** [extract_date] *)

(** [\d{n}] *)
Fixpoint digits (n : nat) : regex :=
  match n with
  | O => Eps
  | S k => Cat (Cls is_digit) (digits k)
  end.

Definition slash : ascii := ascii_of_nat 47.
Definition hyphen : ascii := ascii_of_nat 45.

(** [(\d{4})/(\d{2})/(\d{2})] *)
Definition url_date_pattern : regex :=
  Cat (digits 4) (Cat (Chr slash) (Cat (digits 2) (Cat (Chr slash) (digits 2)))).

Definition unknown_date : string := "Неизвестно".

(** The three groups of a match of [url_date_pattern] have fixed
    places in it. *)
Definition url_date (url : string) : option string :=
  match re_search false url_date_pattern url with
  | Some (_, m, _) =>
      Some (string_of_list_ascii
              (firstn 4 m ++ hyphen :: firstn 2 (skipn 5 m) ++ hyphen :: firstn 2 (skipn 8 m)))
  | None => None
  end.

(** [soup.find(...) or soup.find(...)]: the element found, with the
    value of its [content] attribute. *)
Definition meta_date (sp : soup) : option (option string) :=
  match meta_published_time sp with
  | Some m => Some m
  | None => meta_name_date sp
  end.

Definition extract_date (sp : soup) (url : string) : string :=
  match meta_date sp with
  | Some (Some (String c content)) => substring 0 10 (String c content)
  | _ =>
      match url_date url with
      | Some d => d
      | None => unknown_date
      end
  end.

(** ** The world of the crawler *)

(** Exceptions; all are subclasses of [Exception]. *)
Inductive exn : Type :=
| TransportError        (* time-out or connection error *)
| ParseError            (* raised by a parser on a malformed document *)
| TypeError.            (* [None] where a string is expected *)

Inductive result (A : Type) : Type :=
| Ret (a : A)
| Raise (e : exn).
Arguments Ret {A} a.
Arguments Raise {A} e.

(** The body of a response: [response.text()] raises, or gives a text
    that is represented by what [ET.fromstring] and [BeautifulSoup] make
    of it ([None] when the parser raises). *)
Inductive body : Type :=
| Unreadable
| Body (xml : option element) (html : option soup).

Inductive outcome : Type :=
| Failure                             (* [session.get] raises *)
| Response (status : Z) (b : body).

(** The network answers the n-th request of the run, made for a URL. *)
Definition network : Type := nat -> string -> outcome.

(** The tuple put on the queue. *)
Record article : Type := {
  a_url : string;
  a_title : option string;
  a_phrase : string;
  a_count : nat;
  a_date : string
}.

(** The lines of the log.  A warning carries the number of the attempt,
    from 0; the message shows that number plus one. *)
Inductive log : Type :=
| LogReading (sitemap : string)
| LogMonth (month : string)
| LogWarning (status : Z) (url : string) (attempt : nat)
| LogError (url : string) (e : exn).

(** What a task does, in the order in which it does it. *)
Inductive event : Type :=
| EvAcquire                           (* the semaphore is entered *)
| EvRelease                           (* the semaphore is left *)
| EvGet (url : string)                (* [session.get] *)
| EvParse (url : string)              (* [ET.fromstring] or [BeautifulSoup] *)
| EvMatch (url : string)              (* [phrase_pattern.findall] *)
| EvPut (a : article)                 (* [queue.put] *)
| EvSleep (seconds : nat)             (* [asyncio.sleep] *)
| EvLog (l : log).

Record world : Type := {
  sitemap_cache : gmap string (list (option string));
  requests : nat;                     (* requests made so far *)
  queue : list (option article);
  trace : list event
}.

Definition emit (e : event) (w : world) : world :=
  {| sitemap_cache := sitemap_cache w; requests := requests w;
     queue := queue w; trace := trace w ++ [e] |}.

Definition session_get (net : network) (url : string) (w : world) : outcome * world :=
  (net (requests w) url,
   {| sitemap_cache := sitemap_cache w; requests := S (requests w);
      queue := queue w; trace := trace w ++ [EvGet url] |}).

Definition cache_store (url : string) (links : list (option string)) (w : world)
  : world :=
  {| sitemap_cache := <[url := links]> (sitemap_cache w); requests := requests w;
     queue := queue w; trace := trace w |}.

Definition queue_put (a : article) (w : world) : world :=
  {| sitemap_cache := sitemap_cache w; requests := requests w;
     queue := queue w ++ [Some a]; trace := trace w ++ [EvPut a] |}.

(** How the body of a [try] statement inside the loop ends when it does
    not raise: with a [return], or by reaching its end. *)
Inductive flow (A : Type) : Type :=
| Return (a : A)
| Next.
Arguments Return {A} a.
Arguments Next {A}.

Definition retry_status (status : Z) : bool :=
  ((status =? 429) || (status =? 500))%Z.

(** Status 429 or 500: a warning, then [asyncio.sleep(2 ** attempt)]. *)
Definition warn_and_sleep (status : Z) (url : string) (attempt : nat) (w : world) : world :=
  emit (EvSleep (2 ^ attempt)) (emit (EvLog (LogWarning status url attempt)) w).

(** [except Exception as e]: an error is logged, then
    [asyncio.sleep(2 ** attempt)]. *)
Definition handle_exception (e : exn) (url : string) (attempt : nat) (w : world) : world :=
  emit (EvSleep (2 ^ attempt)) (emit (EvLog (LogError url e)) w).

(** ** [get_sitemap_links] *)

(** The body of the [try] statement of one attempt. *)
Definition sitemap_attempt (net : network) (sitemap_url : string) (attempt : nat)
    (w : world) : result (flow (list (option string))) * world :=
  let '(o, w) := session_get net sitemap_url w in
  match o with
  | Failure => (Raise TransportError, w)
  | Response status b =>
      if (status =? 200)%Z then
        match b with
        | Unreadable => (Raise TransportError, w)
        | Body xml _ =>
            let w := emit (EvParse sitemap_url) w in
            match xml with
            | None => (Raise ParseError, w)
            | Some tree =>
                let links := sitemap_links tree in
                (Ret (Return links), cache_store sitemap_url links w)
            end
        end
      else if retry_status status then
        (Ret Next, warn_and_sleep status sitemap_url attempt w)
      else (Ret Next, w)
  end.

(** The loop over the attempts, and the [return []] after it. *)
Fixpoint sitemap_loop (net : network) (sitemap_url : string) (attempts : list nat)
    (w : world) : result (list (option string)) * world :=
  match attempts with
  | [] => (Ret [], w)
  | attempt :: rest =>
      match sitemap_attempt net sitemap_url attempt w with
      | (Ret (Return links), w) => (Ret links, w)
      | (Ret Next, w) => sitemap_loop net sitemap_url rest w
      | (Raise e, w) =>
          sitemap_loop net sitemap_url rest (handle_exception e sitemap_url attempt w)
      end
  end.

Definition get_sitemap_links (net : network) (sitemap_url : string) (w : world)
  : result (list (option string)) * world :=
  match sitemap_cache w !! sitemap_url with
  | Some links => (Ret links, w)
  | None => sitemap_loop net sitemap_url (seq 0 3) w
  end.

(** ** [extract_text_from_url] *)

Definition no_title : string := "Без заголовка".

(** [(\d{4})-(\d{2})] *)
Definition month_pattern : regex :=
  Cat (digits 4) (Cat (Chr hyphen) (digits 2)).

(** The month of a date is logged when it differs from the last one seen.
    The caller passes a fresh cell holding the empty string and never
    reads it back, so the cell is an argument here. *)
Definition log_month (date_published last_month_seen : string) (w : world) : world :=
  match re_search false month_pattern date_published with
  | Some (_, m, _) =>
      let current_month := string_of_list_ascii m in
      if String.eqb last_month_seen current_month then w
      else emit (EvLog (LogMonth current_month)) w
  | None => w
  end.

(** The body of the [try] statement of one attempt. *)
Definition page_attempt (net : network) (article_url phrase last_month_seen : string)
    (attempt : nat) (w : world) : result (flow (option string)) * world :=
  let '(o, w) := session_get net article_url w in
  match o with
  | Failure => (Raise TransportError, w)
  | Response status b =>
      if (status =? 200)%Z then
        match b with
        | Unreadable => (Raise TransportError, w)
        | Body _ html =>
            let w := emit (EvParse article_url) w in
            match html with
            | None => (Raise ParseError, w)
            | Some sp =>
                let section_texts := map lower (soup_sections sp) in
                let article_text := String.concat (String newline EmptyString) section_texts in
                let title :=
                  match soup_title sp with
                  | Some t => t
                  | None => Some no_title
                  end in
                let date_published := extract_date sp article_url in
                let w := log_month date_published last_month_seen w in
                let occurrences := page_occurrences article_text phrase in
                let w := emit (EvMatch article_url) w in
                if 0 <? occurrences then
                  (Ret (Return (Some article_url)),
                   queue_put {| a_url := article_url; a_title := title;
                                a_phrase := phrase; a_count := occurrences;
                                a_date := date_published |} w)
                else (Ret (Return None), w)
            end
        end
      else if retry_status status then
        (Ret Next, warn_and_sleep status article_url attempt w)
      else (Ret Next, w)
  end.

(** The loop over the attempts; the function returns [None] after it. *)
Fixpoint page_loop (net : network) (article_url phrase last_month_seen : string)
    (attempts : list nat) (w : world) : result (option string) * world :=
  match attempts with
  | [] => (Ret None, w)
  | attempt :: rest =>
      match page_attempt net article_url phrase last_month_seen attempt w with
      | (Ret (Return r), w) => (Ret r, w)
      | (Ret Next, w) => page_loop net article_url phrase last_month_seen rest w
      | (Raise e, w) =>
          page_loop net article_url phrase last_month_seen rest
                    (handle_exception e article_url attempt w)
      end
  end.

(** [async with semaphore:] encloses the whole loop; the semaphore is
    left however the block ends. *)
Definition extract_text_from_url (net : network)
    (article_url phrase last_month_seen : string) (w : world)
  : result (option string) * world :=
  let w := emit EvAcquire w in
  let '(r, w) := page_loop net article_url phrase last_month_seen (seq 0 3) w in
  (r, emit EvRelease w).

Definition semaphore_capacity : nat := 50.

(** ** [find_articles_in_sitemap] *)

Definition bind {A B : Type} (m : world -> result A * world)
    (k : A -> world -> result B * world) (w : world) : result B * world :=
  match m w with
  | (Ret a, w) => k a w
  | (Raise e, w) => (Raise e, w)
  end.

Definition ret {A : Type} (a : A) (w : world) : result A * world := (Ret a, w).

Notation "x <~ m ;; k" := (bind m (fun x => k))
  (at level 100, m at next level, right associativity).

(** [int] of a string of decimal digits. *)
Definition int_of_digits (ds : list ascii) : Z :=
  fold_left (fun acc d => (acc * 10 + (Z.of_nat (code d) - 48))%Z) ds 0%Z.

(** [(\d{4})] *)
Definition year_pattern : regex := digits 4.

(** The condition of the filter on the links of the root sitemap. *)
Definition year_in_range (year_from year_to : Z) (link : string) : bool :=
  match re_search false year_pattern link with
  | Some (_, m, _) =>
      ((year_from <=? int_of_digits m) && (int_of_digits m <=? year_to))%Z
  | None => false
  end.

(** The list comprehension that filters the links of the start
    sitemap.  [re.search] raises [TypeError] on a link that is [None],
    and nothing catches it. *)
Fixpoint filter_by_year (year_from year_to : Z) (links : list (option string))
  : result (list string) :=
  match links with
  | [] => Ret []
  | None :: _ => Raise TypeError
  | Some link :: rest =>
      match filter_by_year year_from year_to rest with
      | Ret more => Ret (if year_in_range year_from year_to link then link :: more else more)
      | Raise e => Raise e
      end
  end.

(** A computation that does not touch the world. *)
Definition pure {A : Type} (r : result A) (w : world) : result A * world := (r, w).

(** The loop that reads the filtered sitemaps and collects their links. *)
Fixpoint read_sitemaps (net : network) (sitemaps : list string)
  : world -> result (list (option string)) * world :=
  match sitemaps with
  | [] => ret []
  | sitemap :: rest =>
      fun w =>
        (links <~ get_sitemap_links net sitemap ;;
         more <~ read_sitemaps net rest ;;
         ret (links ++ more)) (emit (EvLog (LogReading sitemap)) w)
  end.

(** [extract_text_from_url] on a link of a child sitemap.  For a link
    that is [None] the session raises when it builds the request, before
    anything is sent; this happens inside the [try] of each of the three
    attempts, so the handler logs the error (the message shows the URL
    as [None]) and sleeps, and the function returns [None]. *)
Definition none_url : string := "None".

Definition extract_text_from_link (net : network) (link : option string)
    (phrase last_month_seen : string) (w : world) : result (option string) * world :=
  match link with
  | Some article_url => extract_text_from_url net article_url phrase last_month_seen w
  | None =>
      let w := emit EvAcquire w in
      let w := fold_left (fun w attempt => handle_exception TypeError none_url attempt w)
                         (seq 0 3) w in
      (Ret None, emit EvRelease w)
  end.

(** The tasks given to [asyncio.gather], each with its own cell for the
    last month seen.  The model runs them one after the other in the
    order of the list, and the results come in that order; the event loop
    may interleave them otherwise, so no property below depends on the
    order of the requests and of the records of different pages. *)
Fixpoint gather_pages (net : network) (urls : list (option string)) (phrase : string)
  : world -> result (list (option string)) * world :=
  match urls with
  | [] => ret []
  | url :: rest =>
      r <~ extract_text_from_link net url phrase EmptyString ;;
      rs <~ gather_pages net rest phrase ;;
      ret (r :: rs)
  end.

(** The part of the function that resolves sitemaps: the links of the
    start sitemap, filtered by year, are read in turn. *)
Definition all_article_urls (net : network) (start_sitemap : string)
    (year_from year_to : Z) : world -> result (list (option string)) * world :=
  sitemap_links <~ get_sitemap_links net start_sitemap ;;
  filtered_links <~ pure (filter_by_year year_from year_to sitemap_links) ;;
  read_sitemaps net filtered_links.

Definition find_articles_in_sitemap (net : network) (start_sitemap phrase : string)
    (year_from year_to : Z) : world -> result (list string) * world :=
  urls <~ all_article_urls net start_sitemap year_from year_to ;;
  results <~ gather_pages net urls phrase ;;
  ret (omap id results).

(** ** The store and [save_to_db] *)

Record row : Type := {
  row_id : nat;
  row_article : article
}.

Definition row_url (r : row) : string := a_url (row_article r).

(** The table [articles]: the rows committed, the rows inserted since the
    last commit, and the largest id given so far (AUTOINCREMENT). *)
Record database : Type := {
  stored : list row;
  pending : list row;
  last_id : nat
}.

Definition empty_database : database :=
  {| stored := []; pending := []; last_id := 0 |}.

Definition commit (db : database) : database :=
  {| stored := stored db ++ pending db; pending := []; last_id := last_id db |}.

(** [CREATE TABLE IF NOT EXISTS], then a commit.  The argument is [None]
    when the file has no table [articles] yet. *)
Definition init_db (file : option database) : database :=
  match file with
  | Some db => commit db
  | None => commit empty_database
  end.

Definition has_url (url : string) (rows : list row) : bool :=
  existsb (fun r => String.eqb (row_url r) url) rows.

(** [INSERT OR IGNORE] of one tuple: [url] is UNIQUE.  The id is drawn
    before the constraint is checked, so an insert that is ignored uses
    up an id as well. *)
Definition insert_or_ignore (db : database) (a : article) : database :=
  if has_url (a_url a) (stored db ++ pending db)
  then {| stored := stored db; pending := pending db; last_id := S (last_id db) |}
  else {| stored := stored db;
          pending := pending db ++ [{| row_id := S (last_id db); row_article := a |}];
          last_id := S (last_id db) |}.

Definition executemany (buffer : list article) (db : database) : database :=
  fold_left insert_or_ignore buffer db.

(** The state of the worker: it has returned, or it waits in
    [queue.get()] with a buffer. *)
Inductive worker : Type :=
| Finished (db : database)
| Waiting (buffer : list article) (db : database).

(** The loop of [save_to_db] on the items that the queue delivers, in
    order, and the flush after it. *)
Fixpoint save_loop (items : list (option article)) (buffer : list article)
    (db : database) : worker :=
  match items with
  | [] => Waiting buffer db
  | None :: _ =>
      match buffer with
      | _ :: _ => Finished (commit (executemany buffer db))
      | [] => Finished db
      end
  | Some data :: rest =>
      let buffer := buffer ++ [data] in
      if 10 <=? length buffer
      then save_loop rest [] (commit (executemany buffer db))
      else save_loop rest buffer db
  end.

Definition save_to_db (db : database) (items : list (option article)) : worker :=
  save_loop items [] db.

Definition worker_db (s : worker) : database :=
  match s with
  | Finished db => db
  | Waiting _ db => db
  end.

(** ** Notions used to state the properties *)

(** The rows of a table that carry a URL. *)
Definition rows_with_url (url : string) (rows : list row) : list row :=
  List.filter (fun r => String.eqb (row_url r) url) rows.

(** The UNIQUE constraint on [url]. *)
Definition db_unique (db : database) : Prop :=
  List.NoDup (map row_url (stored db ++ pending db)).

(** The events of a trace up to the next request. *)
Definition is_get (e : event) : bool :=
  match e with EvGet _ => true | _ => false end.

Fixpoint until_get (tr : list event) : list event :=
  match tr with
  | e :: tr' => if is_get e then [] else e :: until_get tr'
  | [] => []
  end.

(** The attempts in a trace: each request with the events that follow it
    up to the next request. *)
Fixpoint attempts_of (tr : list event) : list (list event) :=
  match tr with
  | e :: tr' =>
      if is_get e then (e :: until_get tr') :: attempts_of tr' else attempts_of tr'
  | [] => []
  end.

(** The outcomes on which an attempt returns a result. *)
Definition sitemap_success (o : outcome) : bool :=
  match o with
  | Response status (Body (Some _) _) => (status =? 200)%Z
  | _ => false
  end.

Definition page_success (o : outcome) : bool :=
  match o with
  | Response status (Body _ (Some _)) => (status =? 200)%Z
  | _ => false
  end.

(** The seconds slept in a trace. *)
Fixpoint total_sleep (tr : list event) : nat :=
  match tr with
  | EvSleep n :: tr' => n + total_sleep tr'
  | _ :: tr' => total_sleep tr'
  | [] => 0
  end.

(** The events [seg] of attempt [a], whose request had the outcome [o].
    A transport failure, at the request or while the body of a response
    with status 200 is read, is logged and followed by a delay of
    [2 ^ a]; so is a body that the parser rejects, after the parse; status
    429 or 500 gives a warning and the same delay; another status than
    200 gives nothing; an attempt that succeeds has no delay. *)
Definition backoff_after (url : string) (a : nat) (success : outcome -> bool)
    (o : outcome) (seg : list event) : Prop :=
  match o with
  | Failure => seg = [EvGet url; EvLog (LogError url TransportError); EvSleep (2 ^ a)]
  | Response status b =>
      if retry_status status
      then seg = [EvGet url; EvLog (LogWarning status url a); EvSleep (2 ^ a)]
      else if (status =? 200)%Z then
        match b with
        | Unreadable =>
            seg = [EvGet url; EvLog (LogError url TransportError); EvSleep (2 ^ a)]
        | Body _ _ =>
            if success o then total_sleep seg = 0
            else seg = [EvGet url; EvParse url; EvLog (LogError url ParseError);
                        EvSleep (2 ^ a)]
        end
      else seg = [EvGet url]
  end.

(** A world in which nothing has happened yet. *)
Definition new_world : world :=
  {| sitemap_cache := ∅; requests := 0; queue := []; trace := [] |}.

(** A network whose responses have status 200 and a body that cannot be
    read. *)
Definition net_unreadable : network :=
  fun _ _ => Response 200 Unreadable.

(** A network that answers every request with one status and a body that
    cannot be parsed. *)
Definition net_status (status : Z) : network :=
  fun _ _ => Response status (Body None None).

(** The events that follow the request of attempt [a] when the attempt
    does not return: what the branch for status 429 or 500, or the
    exception handler, does. *)
Definition after_failed_request (url : string) (a : nat) (o : outcome) : list event :=
  match o with
  | Failure => [EvLog (LogError url TransportError); EvSleep (2 ^ a)]
  | Response status b =>
      if (status =? 200)%Z then
        match b with
        | Unreadable => [EvLog (LogError url TransportError); EvSleep (2 ^ a)]
        | Body _ _ => [EvParse url; EvLog (LogError url ParseError); EvSleep (2 ^ a)]
        end
      else if retry_status status then
        [EvLog (LogWarning status url a); EvSleep (2 ^ a)]
      else []
  end.

(** The world after an attempt that did not return. *)
Definition failed_attempt (url : string) (a : nat) (o : outcome) (w : world) : world :=
  {| sitemap_cache := sitemap_cache w; requests := S (requests w); queue := queue w;
     trace := trace w ++ EvGet url :: after_failed_request url a o |}.

(** The events of a page that was fetched and parsed: the month log, the
    match and, when the phrase occurs, the put. *)
Definition is_page_work (e : event) : bool :=
  match e with
  | EvMatch _ | EvPut _ | EvLog (LogMonth _) => true
  | _ => false
  end.

(** The events of the two fetch loops: everything but entering and
    leaving the semaphore and the log line of [find_articles_in_sitemap]. *)
Definition is_loop_event (e : event) : bool :=
  match e with
  | EvAcquire | EvRelease | EvLog (LogReading _) => false
  | _ => true
  end.

(** The fetch protocol as the loops follow it, on the attempts [segs] of
    a fetch whose first request is request number [n0] of the run: one to
    three attempts; after an attempt that ends with status 429 or 500 or
    with a transport failure, a delay of [2 ^ attempt]; after an attempt
    with another status than 200, nothing; and a failed attempt that is
    not the third is followed by another attempt. *)
Definition retry_protocol (net : network) (url : string) (success : outcome -> bool)
    (n0 : nat) (segs : list (list event)) : Prop :=
  1 <= length segs <= 3
  /\ (forall a seg, nth_error segs a = Some seg ->
                    backoff_after url a success (net (a + n0) url) seg)
  /\ (forall a, a < 2 -> a < length segs ->
                success (net (a + n0) url) = false -> S a < length segs).

(** The claim about the limiter as a check on a trace: requests are made
    inside the semaphore, parsing and matching outside it.  [held] counts
    the slots the task holds. *)
Fixpoint limiter_around_requests_only (held : nat) (tr : list event) : bool :=
  match tr with
  | [] => true
  | EvAcquire :: tr' => limiter_around_requests_only (S held) tr'
  | EvRelease :: tr' => limiter_around_requests_only (pred held) tr'
  | EvGet _ :: tr' => (0 <? held) && limiter_around_requests_only held tr'
  | (EvParse _ | EvMatch _) :: tr' => (held =? 0) && limiter_around_requests_only held tr'
  | _ :: tr' => limiter_around_requests_only held tr'
  end.

(** Sample inputs. *)
Definition sun_sitemap : string := "https://www.thesun.co.uk/sitemap.xml".
Definition sun_article : string := "https://www.thesun.co.uk/news/2025/03/14/story".

Definition ns (tag : string) : string := String.append namespace tag.

Definition loc (url : string) : element := Element (ns "loc") (Some url) [].

(** An entry whose [loc] has no text. *)
Definition empty_loc : element := Element (ns "loc") None [].

(** A page with one content section and no metadata. *)
Definition sample_page : soup :=
  {| soup_sections := ["Dishy Rishi is back. Dishy Rishi!"];
     soup_title := Some (Some "Story");
     meta_published_time := None;
     meta_name_date := None |}.

(** A network that answers every request with the same page. *)
Definition net_page (sp : soup) : network :=
  fun _ _ => Response 200 (Body None (Some sp)).

(** A network that answers every request with the same XML document. *)
Definition net_xml (tree : element) : network :=
  fun _ _ => Response 200 (Body (Some tree) None).

(** A sitemap document with both kinds of entries. *)
Definition mixed_sitemap : element :=
  Element (ns "urlset") None
    [ Element (ns "sitemap") None [loc "https://www.thesun.co.uk/sitemap-2025.xml"];
      Element (ns "url") None [loc "https://www.thesun.co.uk/news/1/"];
      Element (ns "url") None [loc "https://www.thesun.co.uk/news/2/"] ].

(** The classes of a pattern that is a sequence of single characters. *)
Fixpoint fixed_classes (ic : bool) (r : regex) : option (list (ascii -> bool)) :=
  match r with
  | Eps => Some []
  | Chr c => Some [chr_matches ic c]
  | Cls p => Some [p]
  | Cat r1 r2 =>
      match fixed_classes ic r1, fixed_classes ic r2 with
      | Some ps1, Some ps2 => Some (ps1 ++ ps2)
      | _, _ => None
      end
  | _ => None
  end.

(** The text split after a prefix whose characters are in the classes,
    one by one. *)
Fixpoint split_match (ps : list (ascii -> bool)) (s : list ascii)
  : option (list ascii * list ascii) :=
  match ps with
  | [] => Some ([], s)
  | p :: ps' =>
      match s with
      | c :: s' =>
          if p c then
            match split_match ps' s' with
            | Some (m, rest) => Some (c :: m, rest)
            | None => None
            end
          else None
      | [] => None
      end
  end.

Definition chars (s : string) : list ascii := list_ascii_of_string s.

(** [y] is a run of four digits of [s], after [pre]. *)
Definition four_digits_at (s pre y post : list ascii) : Prop :=
  s = pre ++ y ++ post /\ length y = 4 /\ forallb is_digit y = true.


(** The leftmost run of four digits of the link is a year in the range. *)
Definition first_year_in_range (year_from year_to : Z) (link : string) : Prop :=
  exists pre y post,
    four_digits_at (chars link) pre y post
    /\ (forall pre' y' post',
          four_digits_at (chars link) pre' y' post' -> length pre <= length pre')
    /\ (year_from <= int_of_digits y <= year_to)%Z.

(** [s] has, after [pre], four digits, a slash, two digits, a slash and
    two digits. *)
Definition date_at (s pre y m d post : list ascii) : Prop :=
  s = pre ++ y ++ slash :: m ++ slash :: d ++ post
  /\ length y = 4 /\ length m = 2 /\ length d = 2
  /\ forallb is_digit (y ++ m ++ d) = true.

(** The sitemaps that [find_articles_in_sitemap] announces before it
    reads them. *)
Fixpoint sitemaps_read (tr : list event) : list string :=
  match tr with
  | EvLog (LogReading sitemap) :: tr' => sitemap :: sitemaps_read tr'
  | _ :: tr' => sitemaps_read tr'
  | [] => []
  end.

(** The URLs requested in a trace. *)
Fixpoint requested (tr : list event) : list string :=
  match tr with
  | EvGet url :: tr' => url :: requested tr'
  | _ :: tr' => requested tr'
  | [] => []
  end.

(** Three child sitemaps, and a root sitemap that lists them. *)
Definition child_2024 : string := "https://www.thesun.co.uk/2024-sitemap.xml".
Definition child_2025 : string := "https://www.thesun.co.uk/2025-sitemap.xml".

Definition index_of (children : list string) : element :=
  Element (ns "sitemapindex") None
    (map (fun u => Element (ns "sitemap") None [loc u]) children).


(** [pre] is the leftmost place of [s] where a date stands. *)
Definition leftmost_date (s pre : list ascii) : Prop :=
  forall pre' y' m' d' post', date_at s pre' y' m' d' post' -> length pre <= length pre'.

(** The date with hyphens. *)
Definition hyphenated (y m d : list ascii) : string :=
  string_of_list_ascii (y ++ hyphen :: m ++ hyphen :: d).

(** A page whose first metadata element has no content, and whose second
    one has a time stamp. *)
Definition page_with_empty_meta : soup :=
  {| soup_sections := [];
     soup_title := None;
     meta_published_time := Some None;
     meta_name_date := Some (Some "2025-01-02T10:00:00Z") |}.

(** The classes of [url_date_pattern]. *)
Definition date_classes : list (ascii -> bool) :=
  repeat is_digit 4 ++ chr_matches false slash :: repeat is_digit 2
    ++ chr_matches false slash :: repeat is_digit 2.

(** ** Occurrences of a phrase *)

(** The rest of [s] after the prefix [p]. *)
Fixpoint strip_prefix (p s : list ascii) : option (list ascii) :=
  match p with
  | [] => Some s
  | x :: p' =>
      match s with
      | c :: s' => if Ascii.eqb x c then strip_prefix p' s' else None
      | [] => None
      end
  end.






(** The number of word boundaries of a text from a position on. *)
Fixpoint count_boundaries (b s : list ascii) : nat :=
  (if at_word_boundary (b, s) then 1 else 0)
  + match s with
    | [] => 0
    | c :: s' => count_boundaries (c :: b) s'
    end.

Definition word_boundaries (text : string) : nat :=
  count_boundaries [] (chars (lower text)).


(** An end of [[class]*] behind at least one character of the class. *)
Definition star_end (p : ascii -> bool) (b s : list ascii) (z : cursor) : Prop :=
  exists k,
    0 < k <= length s
    /\ forallb p (firstn k s) = true
    /\ z = (rev (firstn k s) ++ b, skipn k s).

(** A record as the page fetcher puts it on the queue. *)
Definition sample_article : article :=
  {| a_url := "https://www.thesun.co.uk/news/1/story/"; a_title := Some "Story";
     a_phrase := "dishy rishi"; a_count := 2; a_date := "2025-03-14" |}.

(** The text in which [extract_text_from_url] looks for the phrase: the
    sections of the page in lower case, joined by line feeds. *)
Definition article_text_of (sp : soup) : string :=
  String.concat (String newline EmptyString) (map lower (soup_sections sp)).

(** ** [main] *)

(** The settings of [main]. *)
Definition main_sitemap_url : string := "https://www.thesun.co.uk/sitemap.xml".
Definition main_phrase : string := "dishy rishi".
Definition main_year_from : Z := 2025.
Definition main_year_to : Z := 2025.

Definition put_end_of_stream (w : world) : world :=
  {| sitemap_cache := sitemap_cache w; requests := requests w;
     queue := queue w ++ [None]; trace := trace w |}.

(** [main] creates the table, starts the worker, looks for the articles,
    puts the end-of-stream item and awaits the worker.  The worker takes
    the items of the queue in their order, whenever it runs, so at the end
    its state is that of [save_to_db] on all the items put.  The process
    starts with an empty cache.  The result is the list of URLs that the
    last log lines print, with the state of the worker.  An exception of
    [find_articles_in_sitemap] leaves [main] before the end-of-stream item
    is put, so the worker is never told to stop. *)
Definition main (net : network) (file : option database)
  : result (list string * worker) * world :=
  let db := init_db file in
  match find_articles_in_sitemap net main_sitemap_url main_phrase
          main_year_from main_year_to new_world with
  | (Ret articles, w) =>
      let w := put_end_of_stream w in
      (Ret (articles, save_to_db db (queue w)), w)
  | (Raise e, w) => (Raise e, w)
  end.

(** The events that a function has added to the trace of a world. *)
Definition events_since (w w' : world) : list event :=
  skipn (length (trace w)) (trace w').

(** The classes of a date with hyphens: [dddd-dd-dd]. *)
Definition iso_classes : list (ascii -> bool) :=
  repeat is_digit 4 ++ Ascii.eqb hyphen :: repeat is_digit 2
    ++ Ascii.eqb hyphen :: repeat is_digit 2.

Definition is_iso_date (s : string) : bool :=
  match split_match iso_classes (chars s) with
  | Some (_, []) => true
  | _ => false
  end.

(** The page has no metadata content to take the date from: the element
    found first, [article:published_time] or, only when there is no such
    element, [date], is missing, or has no content, or an empty one. *)
Definition no_meta_content (sp : soup) : Prop :=
  match meta_published_time sp with
  | Some (Some c) => c = EmptyString
  | Some None => True
  | None =>
      match meta_name_date sp with
      | Some (Some c) => c = EmptyString
      | _ => True
      end
  end.

(** A page with a time stamp in each of the two metadata elements. *)
Definition page_with_two_dates : soup :=
  {| soup_sections := [];
     soup_title := None;
     meta_published_time := Some (Some "2025-01-02T10:00:00Z");
     meta_name_date := Some (Some "1999-12-31") |}.

(** A page whose metadata has a time stamp. *)
Definition page_with_time_stamp : soup :=
  {| soup_sections := [];
     soup_title := None;
     meta_published_time := Some (Some "2025-01-02T10:00:00Z");
     meta_name_date := None |}.

(** The classes of [month_pattern]. *)
Definition month_classes : list (ascii -> bool) :=
  repeat is_digit 4 ++ [chr_matches false hyphen] ++ repeat is_digit 2.

(** The elements that [sitemap_links] may read a link from: the children
    tagged [loc] of the children of the root tagged [entry], all in the
    namespace of sitemaps. *)
Definition is_entry_loc (tree : element) (entry : string) (e : element) : Prop :=
  exists c,
    In c (children_of tree) /\ tag_of c = String.append namespace entry
    /\ In e (children_of c) /\ tag_of e = String.append namespace "loc".

(** The rest of [s] after a prefix that is [p] up to the case of the
    letters. *)
Fixpoint strip_prefix_ci (p s : list ascii) : option (list ascii) :=
  match p with
  | [] => Some s
  | x :: p' =>
      match s with
      | c :: s' =>
          if Ascii.eqb (lower_char x) (lower_char c) then strip_prefix_ci p' s' else None
      | [] => None
      end
  end.

(** What the page matcher asks behind the phrase: a character that is not
    a word character, and that is not a line feed ending the text. *)
Definition followed_by_text (rest : list ascii) : bool :=
  match rest with
  | [] => false
  | [c] => negb (is_word c) && negb (Ascii.eqb c newline)
  | c :: _ => negb (is_word c)
  end.

(** An occurrence for the page matcher: no word character before the
    phrase, the phrase up to case, and text behind it. *)
Definition page_match_at (p : list ascii) (z : cursor) : bool :=
  negb (word_before z)
  && match strip_prefix_ci p (snd z) with
     | Some rest => followed_by_text rest
     | None => false
     end.

(** The occurrences for the page matcher, counted from left to right
    without overlap. *)
Fixpoint page_scan (p : list ascii) (skip : nat) (b s : list ascii) : nat :=
  match skip with
  | S n =>
      match s with
      | c :: s' => page_scan p n (c :: b) s'
      | [] => 0
      end
  | O =>
      if page_match_at p (b, s) then
        S match s with
          | c :: s' => page_scan p (pred (length p)) (c :: b) s'
          | [] => 0
          end
      else
        match s with
        | c :: s' => page_scan p 0 (c :: b) s'
        | [] => 0
        end
  end.


(** A later record for the URL of [sample_article]. *)
Definition later_article : article :=
  {| a_url := a_url sample_article; a_title := None;
     a_phrase := "dishy rishi"; a_count := 7; a_date := unknown_date |}.

Definition sample_row : row := {| row_id := 1; row_article := sample_article |}.

(** A site: the start sitemap lists two children, the child for 2025
    lists one article, and every other URL gives a page that contains
    the phrase of [main] twice. *)
Definition leaf_sitemap : element :=
  Element (ns "urlset") None [Element (ns "url") None [loc sun_article]].

Definition net_site : network :=
  fun _ url =>
    if String.eqb url main_sitemap_url
    then Response 200 (Body (Some (index_of [child_2024; child_2025])) None)
    else if String.eqb url child_2025
    then Response 200 (Body (Some leaf_sitemap) None)
    else Response 200 (Body None (Some sample_page)).

(** A start sitemap with an entry whose [loc] is empty. *)
Definition sitemap_with_empty_loc : element :=
  Element (ns "sitemapindex") None
    [ Element (ns "sitemap") None [loc child_2025];
      Element (ns "sitemap") None [empty_loc] ].

(** A network that answers every request with one document, which both
    parsers accept. *)
Definition net_document (tree : element) (sp : soup) : network :=
  fun _ _ => Response 200 (Body (Some tree) (Some sp)).

(** Twelve records with distinct URLs, and a table that holds a row
    with another URL. *)
Definition record_of (url : string) : article :=
  {| a_url := url; a_title := Some "Story"; a_phrase := "dishy rishi";
     a_count := 1; a_date := "2025-03-14" |}.

Definition twelve_articles : list article :=
  map record_of
      ["/news/a"; "/news/b"; "/news/c"; "/news/d"; "/news/e"; "/news/f";
       "/news/g"; "/news/h"; "/news/i"; "/news/j"; "/news/k"; "/news/l"].

Definition table_with_one_row : database :=
  {| stored := [{| row_id := 1; row_article := sample_article |}];
     pending := []; last_id := 1 |}.

(** The first of the records that carries a URL. *)
Definition first_with_url (url : string) (recs : list article) : option article :=
  List.find (fun a => String.eqb (a_url a) url) recs.

(** * Properties *)

(** ** The store *)

Lemma has_url_In (u : string) (rows : list row) :
  has_url u rows = true <-> In u (map row_url rows).
Proof.
  unfold has_url. rewrite existsb_exists. split.
  - intros [r [Hr He]]. apply String.eqb_eq in He. subst u. now apply in_map.
  - intros H. apply in_map_iff in H as [r [He Hr]]. exists r. split; [exact Hr|].
    now apply String.eqb_eq.
Qed.

Lemma rows_with_url_le_1 (u : string) (rows : list row) :
  List.NoDup (map row_url rows) -> length (rows_with_url u rows) <= 1.
Proof.
  induction rows as [|r rows IH]; simpl; intros H; [lia|].
  inversion H as [|x l Hnot Hnd]; subst.
  destruct (String.eqb_spec (row_url r) u) as [E|E]; [|now apply IH].
  simpl. assert (rows_with_url u rows = []) as ->; [|simpl; lia].
  unfold rows_with_url. destruct (List.filter _ rows) as [|r' l'] eqn:F; [reflexivity|].
  exfalso. assert (In r' (List.filter (fun r0 => String.eqb (row_url r0) u) rows)) as Hin
    by (rewrite F; now left).
  apply filter_In in Hin as [Hin He]. apply String.eqb_eq in He.
  apply Hnot. rewrite E, <- He. now apply in_map.
Qed.

Lemma rows_with_url_ge_1 (u : string) (rows : list row) :
  In u (map row_url rows) -> 1 <= length (rows_with_url u rows).
Proof.
  intros H. apply in_map_iff in H as [r [He Hr]].
  assert (In r (rows_with_url u rows)) as Hin.
  { unfold rows_with_url. apply filter_In. split; [exact Hr|]. now apply String.eqb_eq. }
  destruct (rows_with_url u rows); [destruct Hin|simpl; lia].
Qed.

Lemma insert_or_ignore_spec (db : database) (a : article) :
  db_unique db ->
  db_unique (insert_or_ignore db a)
  /\ stored (insert_or_ignore db a) = stored db
  /\ (exists more, pending (insert_or_ignore db a) = pending db ++ more)
  /\ In (a_url a) (map row_url (stored (insert_or_ignore db a)
                                  ++ pending (insert_or_ignore db a))).
Proof.
  intros U. unfold insert_or_ignore.
  destruct (has_url (a_url a) (stored db ++ pending db)) eqn:H.
  - repeat split; try assumption.
    + exists []. now rewrite app_nil_r.
    + now apply has_url_In.
  - assert (~ In (a_url a) (map row_url (stored db ++ pending db))) as Hn.
    { intros Hin. apply has_url_In in Hin. congruence. }
    simpl. repeat split.
    + unfold db_unique in *. simpl. rewrite app_assoc, map_app. simpl.
      apply List.NoDup_app.
      * exact U.
      * constructor; [intros []|constructor].
      * intros x Hx [Hx'|[]]. unfold row_url in Hx'. simpl in Hx'. subst x. now apply Hn.
    + eexists. reflexivity.
    + rewrite app_assoc, map_app. apply in_or_app. right. now left.
Qed.

Lemma executemany_spec (buffer : list article) (db : database) :
  db_unique db ->
  db_unique (executemany buffer db)
  /\ stored (executemany buffer db) = stored db
  /\ (exists more, pending (executemany buffer db) = pending db ++ more)
  /\ (forall a, In a buffer ->
        In (a_url a) (map row_url (stored (executemany buffer db)
                                     ++ pending (executemany buffer db)))).
Proof.
  revert db. unfold executemany.
  induction buffer as [|a buffer IH]; intros db U; simpl.
  - repeat split; auto. + exists []. now rewrite app_nil_r. + intros a [].
  - destruct (insert_or_ignore_spec db a U) as (U1 & S1 & [m1 P1] & I1).
    destruct (IH _ U1) as (U2 & S2 & [m2 P2] & I2).
    repeat split.
    + exact U2.
    + now rewrite S2.
    + exists (m1 ++ m2). now rewrite P2, P1, app_assoc.
    + intros x [->|Hx]; [|now apply I2].
      rewrite S2, P2, app_assoc, map_app. apply in_or_app. now left.
Qed.

Lemma flush_spec (buffer : list article) (db : database) :
  db_unique db ->
  let db' := commit (executemany buffer db) in
  db_unique db'
  /\ (exists more, stored db' = stored db ++ more)
  /\ pending db' = []
  /\ (forall u, In u (map row_url (stored db ++ pending db)) -> In u (map row_url (stored db')))
  /\ (forall a, In a buffer -> In (a_url a) (map row_url (stored db'))).
Proof.
  intros U. destruct (executemany_spec buffer db U) as (U1 & S1 & [m P1] & I1).
  simpl. unfold commit. simpl. repeat split.
  - unfold db_unique. simpl. now rewrite app_nil_r.
  - rewrite S1. eexists. reflexivity.
  - intros u Hu. rewrite S1, P1, app_assoc, map_app. apply in_or_app. now left.
  - exact I1.
Qed.

Lemma save_loop_spec (items : list (option article)) :
  forall (buffer : list article) (db : database),
    db_unique db ->
    let db' := worker_db (save_loop items buffer db) in
    db_unique db'
    /\ (exists more, stored db' = stored db ++ more)
    /\ (forall front back,
          items = map Some front ++ None :: back ->
          forall a, In a buffer \/ In a front -> In (a_url a) (map row_url (stored db'))).
Proof.
  induction items as [|[data|] rest IH]; intros buffer db U; cbn [save_loop].
  - cbn [worker_db]. repeat split; [exact U | exists []; now rewrite app_nil_r |].
    intros [|? ?] back E; discriminate E.
  - destruct (10 <=? length (buffer ++ [data])).
    + destruct (flush_spec (buffer ++ [data]) db U) as (U1 & [m1 S1] & _ & _ & I1).
      destruct (IH [] _ U1) as (U2 & [m2 S2] & I2).
      repeat split; [exact U2 | exists (m1 ++ m2); now rewrite S2, S1, app_assoc |].
      intros [|x front] back E a Ha; simpl in E; [discriminate E|].
      injection E as -> E.
      assert (In a (buffer ++ [x]) \/ In a front) as [Hb|Hf].
      { destruct Ha as [Ha|[Ha|Ha]]; [left|left|right]; auto.
        - apply in_or_app. now left.
        - apply in_or_app. right. now left. }
      * rewrite S2, map_app. apply in_or_app. left. now apply I1.
      * apply (I2 front back E). now right.
    + destruct (IH (buffer ++ [data]) db U) as (U2 & S2 & I2).
      repeat split; [exact U2 | exact S2 |].
      intros [|x front] back E a Ha; simpl in E; [discriminate E|].
      injection E as -> E. apply (I2 front back E).
      destruct Ha as [Ha|[Ha|Ha]]; [left|left|right]; auto.
      * apply in_or_app. now left.
      * apply in_or_app. right. now left.
  - destruct buffer as [|b buffer]; cbn [worker_db].
    + repeat split; [exact U | exists []; now rewrite app_nil_r |].
      intros [|x front] back E a Ha; simpl in E; [|discriminate E].
      destruct Ha as [[]|[]].
    + destruct (flush_spec (b :: buffer) db U) as (U1 & S1 & _ & _ & I1).
      repeat split; [exact U1 | exact S1 |].
      intros [|x front] back E a Ha; simpl in E; [|discriminate E].
      destruct Ha as [Ha|[]]. now apply I1.
Qed.

(** C3.  Whatever is submitted, and however far the worker has got, the
    store never holds two rows with the same URL, and the rows it held
    stay: a record whose URL is already there is dropped.  Once the
    end-of-stream item has been taken, every record submitted before it has
    exactly one committed row with its URL; so it is for a record submitted
    twice. *)
Theorem save_to_db_one_row_per_url (db : database) (items : list (option article)) :
  db_unique db ->
  let db' := worker_db (save_to_db db items) in
  (forall u, length (rows_with_url u (stored db')) <= 1)
  /\ (forall u, length (rows_with_url u (stored db' ++ pending db')) <= 1)
  /\ (forall r, In r (stored db) -> In r (stored db'))
  /\ (forall front back a,
        items = map Some front ++ None :: back -> In a front ->
        length (rows_with_url (a_url a) (stored db')) = 1)
  /\ (forall a,
        length (rows_with_url (a_url a)
                  (stored (worker_db (save_to_db db [Some a; Some a; None])))) = 1).
Proof.
  intros U.
  assert (forall its, List.NoDup (map row_url (stored (worker_db (save_to_db db its))))) as ND.
  { intros its. destruct (save_loop_spec its [] db U) as (U' & _).
    unfold db_unique in U'. rewrite map_app in U'. now apply NoDup_app_remove_r in U'. }
  assert (forall its front back a,
             its = map Some front ++ None :: back -> In a front ->
             length (rows_with_url (a_url a) (stored (worker_db (save_to_db db its)))) = 1) as ONE.
  { intros its front back a E Ha.
    destruct (save_loop_spec its [] db U) as (_ & _ & I').
    apply Nat.le_antisymm.
    - apply rows_with_url_le_1, ND.
    - apply rows_with_url_ge_1, (I' front back E). now right. }
  destruct (save_loop_spec items [] db U) as (U' & [more S'] & I').
  cbv zeta. repeat split.
  - intros u. apply rows_with_url_le_1, ND.
  - intros u. apply rows_with_url_le_1, U'.
  - intros r Hr. unfold save_to_db. rewrite S'. apply in_or_app. now left.
  - intros front back a E Ha. now apply (ONE items front back a).
  - intros a. apply (ONE _ [a; a] [] a); [reflexivity | now left].
Qed.

Lemma save_to_db_one_row_per_url_witness :
  db_unique (init_db None)
  /\ length (rows_with_url (a_url sample_article)
               (stored (worker_db (save_to_db (init_db None)
                                     [Some sample_article; Some sample_article; None])))) = 1.
Proof.
  assert (db_unique (init_db None)) as U by (vm_compute; constructor).
  split; [exact U|].
  apply (save_to_db_one_row_per_url (init_db None) [] U).
Defined.

(** ** The fetch loops *)

Lemma trace_emit (e : event) (w : world) : trace (emit e w) = trace w ++ [e].
Proof. reflexivity. Qed.

Lemma world_eq (c c' : gmap string (list (option string))) (n n' : nat)
    (q q' : list (option article)) (t t' : list event) :
  c = c' -> n = n' -> q = q' -> t = t' ->
  {| sitemap_cache := c; requests := n; queue := q; trace := t |}
  = {| sitemap_cache := c'; requests := n'; queue := q'; trace := t' |}.
Proof. now intros -> -> -> ->. Qed.

Ltac world_eq := apply world_eq; cbn -[Nat.pow]; rewrite <- ?app_assoc; reflexivity.

Lemma sitemap_success_inv (o : outcome) :
  sitemap_success o = true ->
  exists tree html, o = Response 200 (Body (Some tree) html).
Proof.
  destruct o as [|status [|[tree|] html]]; simpl; try discriminate.
  intros H. apply Z.eqb_eq in H. subst. now exists tree, html.
Qed.

Lemma page_success_inv (o : outcome) :
  page_success o = true ->
  exists xml sp, o = Response 200 (Body xml (Some sp)).
Proof.
  destruct o as [|status [|xml [sp|]]]; simpl; try discriminate.
  intros H. apply Z.eqb_eq in H. subst. now exists xml, sp.
Qed.

(** One iteration of the loop of [get_sitemap_links] that does not return. *)
Lemma sitemap_loop_failed (net : network) (url : string) (a : nat) (rest : list nat)
    (w : world) :
  sitemap_success (net (requests w) url) = false ->
  sitemap_loop net url (a :: rest) w
  = sitemap_loop net url rest (failed_attempt url a (net (requests w) url) w).
Proof.
  intros H. cbn [sitemap_loop]. unfold sitemap_attempt, session_get, failed_attempt.
  destruct (net (requests w) url) as [|status [|[tree|] html]]; cbn -[Nat.pow] in *.
  - f_equal. unfold handle_exception, emit. world_eq.
  - destruct (status =? 200)%Z; [|destruct (retry_status status)]; cbn -[Nat.pow];
      f_equal; unfold handle_exception, warn_and_sleep, emit; world_eq.
  - rewrite H. destruct (retry_status status); cbn -[Nat.pow];
      f_equal; unfold handle_exception, warn_and_sleep, emit; world_eq.
  - destruct (status =? 200)%Z; [|destruct (retry_status status)]; cbn -[Nat.pow];
      f_equal; unfold handle_exception, warn_and_sleep, emit; world_eq.
Qed.

(** One iteration of the loop of [get_sitemap_links] that returns. *)
Lemma sitemap_loop_success (net : network) (url : string) (a : nat) (rest : list nat)
    (w : world) (tree : element) (html : option soup) :
  net (requests w) url = Response 200 (Body (Some tree) html) ->
  sitemap_loop net url (a :: rest) w
  = (Ret (sitemap_links tree),
     {| sitemap_cache := <[url := sitemap_links tree]> (sitemap_cache w);
        requests := S (requests w); queue := queue w;
        trace := trace w ++ [EvGet url; EvParse url] |}).
Proof.
  intros H. cbn [sitemap_loop]. unfold sitemap_attempt, session_get. rewrite H.
  cbn. f_equal. unfold cache_store, emit. world_eq.
Qed.

Lemma page_loop_failed (net : network) (url phrase lms : string) (a : nat)
    (rest : list nat) (w : world) :
  page_success (net (requests w) url) = false ->
  page_loop net url phrase lms (a :: rest) w
  = page_loop net url phrase lms rest (failed_attempt url a (net (requests w) url) w).
Proof.
  intros H. cbn [page_loop]. unfold page_attempt, session_get, failed_attempt.
  destruct (net (requests w) url) as [|status [|xml [sp|]]]; cbn -[Nat.pow] in *.
  - f_equal. unfold handle_exception, emit. world_eq.
  - destruct (status =? 200)%Z; [|destruct (retry_status status)]; cbn -[Nat.pow];
      f_equal; unfold handle_exception, warn_and_sleep, emit; world_eq.
  - rewrite H. destruct (retry_status status); cbn -[Nat.pow];
      f_equal; unfold handle_exception, warn_and_sleep, emit; world_eq.
  - destruct (status =? 200)%Z; [|destruct (retry_status status)]; cbn -[Nat.pow];
      f_equal; unfold handle_exception, warn_and_sleep, emit; world_eq.
Qed.

Lemma page_loop_success (net : network) (url phrase lms : string) (a : nat)
    (rest : list nat) (w : world) (xml : option element) (sp : soup) :
  net (requests w) url = Response 200 (Body xml (Some sp)) ->
  exists r q work,
    page_loop net url phrase lms (a :: rest) w
    = (Ret r,
       {| sitemap_cache := sitemap_cache w; requests := S (requests w); queue := q;
          trace := trace w ++ EvGet url :: EvParse url :: work |})
    /\ forallb is_page_work work = true
    /\ In (EvMatch url) work.
Proof.
  intros H. cbn [page_loop]. unfold page_attempt, session_get. rewrite H.
  cbn -[page_occurrences extract_date re_search String.concat Nat.ltb].
  unfold log_month.
  destruct (re_search false month_pattern (extract_date sp url)) as [[[? m] ?]|];
    [destruct (String.eqb lms (string_of_list_ascii m))|];
    match goal with |- context [0 <? ?x] => destruct (0 <? x) end;
    unfold queue_put, emit; cbn -[page_occurrences extract_date String.concat];
    do 3 eexists; (split; [f_equal; world_eq|]); split; try reflexivity;
    cbn; auto.
Qed.

Lemma until_get_app (l rest : list event) :
  forallb (fun e => negb (is_get e)) l = true ->
  until_get (l ++ rest) = l ++ until_get rest.
Proof.
  induction l as [|e l IH]; simpl; [reflexivity|].
  intros H. apply andb_prop in H as [He Hl].
  destruct (is_get e); [discriminate|]. now rewrite IH.
Qed.

Lemma attempts_of_app (l rest : list event) :
  forallb (fun e => negb (is_get e)) l = true ->
  attempts_of (l ++ rest) = attempts_of rest.
Proof.
  induction l as [|e l IH]; simpl; [reflexivity|].
  intros H. apply andb_prop in H as [He Hl].
  destruct (is_get e); [discriminate|]. now apply IH.
Qed.

Lemma after_failed_request_events (url : string) (a : nat) (o : outcome) :
  forallb (fun e => negb (is_get e)) (after_failed_request url a o) = true
  /\ forallb is_loop_event (after_failed_request url a o) = true.
Proof.
  destruct o as [|status [|xml html]]; cbn -[Nat.pow]; auto;
    destruct (status =? 200)%Z; auto; destruct (retry_status status); auto.
Qed.

Lemma page_work_events (work : list event) :
  forallb is_page_work work = true ->
  forallb (fun e => negb (is_get e)) work = true
  /\ forallb is_loop_event work = true.
Proof.
  induction work as [|e work IH]; simpl; [auto|].
  intros H. apply andb_prop in H as [He Hw]. destruct (IH Hw) as [-> ->].
  destruct e as [| | | | | | |[]]; try discriminate; auto.
Qed.

Lemma total_sleep_app (l1 l2 : list event) :
  total_sleep (l1 ++ l2) = total_sleep l1 + total_sleep l2.
Proof.
  induction l1 as [|e l1 IH]; [reflexivity|].
  destruct e; cbn; rewrite IH; lia.
Qed.

Lemma total_sleep_after_failed (url : string) (a : nat) (o : outcome) :
  total_sleep (after_failed_request url a o) <= 2 ^ a.
Proof.
  destruct o as [|status [|xml html]]; cbn -[Nat.pow]; try lia;
    destruct (status =? 200)%Z; cbn -[Nat.pow]; try lia;
    destruct (retry_status status); cbn -[Nat.pow]; lia.
Qed.

Lemma total_sleep_page_work (work : list event) :
  forallb is_page_work work = true -> total_sleep work = 0.
Proof.
  induction work as [|e work IH]; [reflexivity|]. cbn. intros H.
  apply andb_prop in H as [He Hw].
  destruct e as [| | | | | | |[]]; try discriminate; now apply IH.
Qed.

Lemma backoff_after_failed (url : string) (a : nat) (success : outcome -> bool)
    (o : outcome) :
  success o = false ->
  backoff_after url a success o (EvGet url :: after_failed_request url a o).
Proof.
  intros F. destruct o as [|status b]; cbn -[Nat.pow]; [reflexivity|].
  destruct (Z.eqb_spec status 200) as [->|Ne].
  - cbn -[Nat.pow]. destruct b; [reflexivity|]. now rewrite F.
  - destruct (retry_status status); reflexivity.
Qed.

Ltac split_ands := repeat match goal with |- _ /\ _ => split end.

Lemma requested_app (l1 l2 : list event) :
  requested (l1 ++ l2) = requested l1 ++ requested l2.
Proof.
  induction l1 as [|e l1 IH]; [reflexivity|].
  destruct e; cbn; now rewrite IH.
Qed.

Lemma requested_no_get (l : list event) :
  forallb (fun e => negb (is_get e)) l = true -> requested l = [].
Proof.
  induction l as [|e l IH]; [reflexivity|]. cbn. intros H.
  apply andb_prop in H as [He Hl]. destruct e; try discriminate; now apply IH.
Qed.

Lemma sitemaps_read_app (l1 l2 : list event) :
  sitemaps_read (l1 ++ l2) = sitemaps_read l1 ++ sitemaps_read l2.
Proof.
  induction l1 as [|e l1 IH]; [reflexivity|].
  destruct e as [| | | | | | |[]]; cbn; now rewrite IH.
Qed.

Lemma sitemaps_read_loop_events (l : list event) :
  forallb is_loop_event l = true -> sitemaps_read l = [].
Proof.
  induction l as [|e l IH]; [reflexivity|]. cbn. intros H.
  apply andb_prop in H as [He Hl].
  destruct e as [| | | | | | |[]]; try discriminate; now apply IH.
Qed.

(** The two loops have the same shape; what follows holds of both. *)
Section RetryLoop.
Context {A : Type}.
Variable net : network.
Variable url : string.
Variable loop : list nat -> world -> result A * world.
Variable success : outcome -> bool.
Variable none : A.

Hypothesis loop_nil : forall w, loop [] w = (Ret none, w).
Hypothesis loop_failed : forall a rest w,
    success (net (requests w) url) = false ->
    loop (a :: rest) w = loop rest (failed_attempt url a (net (requests w) url) w).
Hypothesis loop_success : forall a rest w,
    success (net (requests w) url) = true ->
    exists r c q work,
      loop (a :: rest) w
      = (Ret r, {| sitemap_cache := c; requests := S (requests w); queue := q;
                   trace := trace w ++ EvGet url :: EvParse url :: work |})
      /\ forallb is_page_work work = true.
Hypothesis success_200 : forall o,
    success o = true -> exists b1 b2, o = Response 200 (Body b1 b2).

Lemma loop_run (attempts : list nat) :
  forall w,
  exists segs,
    trace (snd (loop attempts w)) = trace w ++ concat segs
    /\ attempts_of (concat segs) = segs
    /\ until_get (concat segs) = []
    /\ requests (snd (loop attempts w)) = length segs + requests w
    /\ length segs <= length attempts
    /\ (attempts <> [] -> 1 <= length segs)
    /\ (forall i seg a,
          nth_error segs i = Some seg -> nth_error attempts i = Some a ->
          backoff_after url a success (net (i + requests w) url) seg)
    /\ (forall i seg a,
          nth_error segs i = Some seg -> nth_error attempts i = Some a ->
          success (net (i + requests w) url) = false ->
          seg = EvGet url :: after_failed_request url a (net (i + requests w) url))
    /\ (forall i,
          S i < length attempts -> i < length segs ->
          success (net (i + requests w) url) = false -> S i < length segs)
    /\ ((forall i, i < length attempts -> success (net (i + requests w) url) = false) ->
        fst (loop attempts w) = Ret none
        /\ length segs = length attempts
        /\ sitemap_cache (snd (loop attempts w)) = sitemap_cache w
        /\ queue (snd (loop attempts w)) = queue w)
    /\ (forall e, fst (loop attempts w) <> Raise e)
    /\ forallb is_loop_event (concat segs) = true
    /\ requested (concat segs) = repeat url (length segs).
Proof.
  induction attempts as [|a rest IH]; intros w.
  - exists []. rewrite loop_nil. cbn. rewrite app_nil_r.
    split_ands; auto; try lia; try discriminate; try congruence.
    all: intros [|i] seg a' H; discriminate H.
  - destruct (success (net (requests w) url)) eqn:S0.
    + destruct (loop_success a rest w S0) as (r & c & q & work & E & W).
      destruct (success_200 _ S0) as (b1 & b2 & Eb).
      destruct (page_work_events work W) as [Wg Wl].
      exists [EvGet url :: EvParse url :: work]. rewrite E. cbn -[Nat.pow].
      rewrite (until_get_app work []), (attempts_of_app work []),
        (requested_app work []), (requested_no_get work) by assumption.
      cbn. rewrite !app_nil_r, Wl.
      split_ands; auto; try lia; try discriminate.
      * intros [|[|i]] seg a' H1 H2; try discriminate H1.
        injection H1 as <-. cbn [Nat.add]. rewrite Eb in *. cbn [backoff_after retry_status].
        cbn. rewrite S0. cbn [total_sleep]. now apply total_sleep_page_work.
      * intros [|[|i]] seg a' H1 H2 F; try discriminate H1.
        cbn in F. congruence.
      * intros [|i] _ Hi F; [cbn in F; congruence|lia].
      * intros F. specialize (F 0 ltac:(lia)). cbn in F. congruence.
    + rewrite (loop_failed a rest w S0).
      set (o := net (requests w) url) in *.
      set (w1 := failed_attempt url a o w).
      destruct (IH w1) as (segs & T & AT & UG & RQ & LE & GE & BK & SG & NX & EX & NR & LP & RD).
      destruct (after_failed_request_events url a o) as [Fg Fl].
      assert (forall i, net (i + requests w1) url = net (S i + requests w) url) as SH.
      { intros i. cbn. now rewrite Nat.add_succ_r. }
      exists ((EvGet url :: after_failed_request url a o) :: segs).
      rewrite T, RQ. cbn -[Nat.pow].
      rewrite <- !app_assoc. cbn -[Nat.pow].
      rewrite until_get_app, attempts_of_app, UG, AT, app_nil_r by assumption.
      rewrite forallb_app, Fl, LP, requested_app, (requested_no_get _ Fg), RD.
      split_ands; auto; try lia; try (cbn; lia).
      * intros [|i] seg a' H1 H2; cbn in H1, H2.
        -- injection H1 as <-. injection H2 as <-. now apply backoff_after_failed.
        -- rewrite <- SH. now apply (BK i seg a').
      * intros [|i] seg a' H1 H2 F; cbn in H1, H2.
        -- injection H1 as <-. injection H2 as <-. reflexivity.
        -- rewrite <- SH in *. now apply (SG i seg a').
      * intros [|i] H1 H2 F.
        { cbn in H1. assert (rest <> []) as Hr by (destruct rest; [cbn in H1; lia|discriminate]).
          specialize (GE Hr). cbn. lia. }
        rewrite <- SH in F. cbn in H1, H2. specialize (NX i ltac:(lia) ltac:(lia) F). lia.
      * intros F.
        destruct EX as (E1 & E2 & E3 & E4).
        { intros i Hi. rewrite SH. apply F. cbn. lia. }
        split_ands; auto; cbn; lia.
Qed.
End RetryLoop.

Lemma sitemap_loop_run (net : network) (url : string) (attempts : list nat) (w : world) :
  let out := sitemap_loop net url attempts w in
  exists segs,
    trace (snd out) = trace w ++ concat segs
    /\ attempts_of (concat segs) = segs
    /\ requests (snd out) = length segs + requests w
    /\ length segs <= length attempts
    /\ (attempts <> [] -> 1 <= length segs)
    /\ (forall i seg a,
          nth_error segs i = Some seg -> nth_error attempts i = Some a ->
          backoff_after url a sitemap_success (net (i + requests w) url) seg)
    /\ (forall i seg a,
          nth_error segs i = Some seg -> nth_error attempts i = Some a ->
          sitemap_success (net (i + requests w) url) = false ->
          seg = EvGet url :: after_failed_request url a (net (i + requests w) url))
    /\ (forall i,
          S i < length attempts -> i < length segs ->
          sitemap_success (net (i + requests w) url) = false -> S i < length segs)
    /\ ((forall i, i < length attempts ->
                   sitemap_success (net (i + requests w) url) = false) ->
        fst out = Ret []
        /\ length segs = length attempts
        /\ sitemap_cache (snd out) = sitemap_cache w
        /\ queue (snd out) = queue w)
    /\ (forall e, fst out <> Raise e)
    /\ forallb is_loop_event (concat segs) = true
    /\ requested (concat segs) = repeat url (length segs).
Proof.
  destruct (loop_run net url (sitemap_loop net url) sitemap_success []) with
    (attempts := attempts) (w := w) as (segs & H); [reflexivity | | | | ].
  - intros. now apply sitemap_loop_failed.
  - intros a rest w' S0. destruct (sitemap_success_inv _ S0) as (tree & html & E).
    exists (sitemap_links tree), (<[url := sitemap_links tree]> (sitemap_cache w')),
      (queue w'), [].
    split; [now apply (sitemap_loop_success net url a rest w' tree html)|reflexivity].
  - intros o S0. destruct (sitemap_success_inv _ S0) as (tree & html & ->). eauto.
  - exists segs. tauto.
Qed.

Lemma page_loop_run (net : network) (url phrase lms : string) (attempts : list nat)
    (w : world) :
  let out := page_loop net url phrase lms attempts w in
  exists segs,
    trace (snd out) = trace w ++ concat segs
    /\ attempts_of (concat segs) = segs
    /\ requests (snd out) = length segs + requests w
    /\ length segs <= length attempts
    /\ (attempts <> [] -> 1 <= length segs)
    /\ (forall i seg a,
          nth_error segs i = Some seg -> nth_error attempts i = Some a ->
          backoff_after url a page_success (net (i + requests w) url) seg)
    /\ (forall i seg a,
          nth_error segs i = Some seg -> nth_error attempts i = Some a ->
          page_success (net (i + requests w) url) = false ->
          seg = EvGet url :: after_failed_request url a (net (i + requests w) url))
    /\ (forall i,
          S i < length attempts -> i < length segs ->
          page_success (net (i + requests w) url) = false -> S i < length segs)
    /\ ((forall i, i < length attempts ->
                   page_success (net (i + requests w) url) = false) ->
        fst out = Ret None
        /\ length segs = length attempts
        /\ sitemap_cache (snd out) = sitemap_cache w
        /\ queue (snd out) = queue w)
    /\ (forall e, fst out <> Raise e)
    /\ forallb is_loop_event (concat segs) = true
    /\ requested (concat segs) = repeat url (length segs).
Proof.
  destruct (loop_run net url (page_loop net url phrase lms) page_success None) with
    (attempts := attempts) (w := w) as (segs & H); [reflexivity | | | | ].
  - intros. now apply page_loop_failed.
  - intros a rest w' S0. destruct (page_success_inv _ S0) as (xml & sp & E).
    destruct (page_loop_success net url phrase lms a rest w' xml sp E)
      as (r & q & work & E' & W & _).
    exists r, (sitemap_cache w'), q, work. now split.
  - intros o S0. destruct (page_success_inv _ S0) as (xml & sp & ->). eauto.
  - exists segs. tauto.
Qed.

Lemma nth_error_seq_0 (n i a : nat) : nth_error (seq 0 n) i = Some a -> a = i.
Proof.
  intros H. assert (i < length (seq 0 n)) as Hi by (apply nth_error_Some; congruence).
  rewrite length_seq in Hi.
  rewrite (nth_error_nth' _ 0) in H by (now rewrite length_seq).
  rewrite seq_nth in H by assumption. now injection H as <-.
Qed.

Lemma extract_text_from_url_unfold (net : network) (url phrase lms : string) (w : world) :
  extract_text_from_url net url phrase lms w
  = (fst (page_loop net url phrase lms (seq 0 3) (emit EvAcquire w)),
     emit EvRelease (snd (page_loop net url phrase lms (seq 0 3) (emit EvAcquire w)))).
Proof.
  unfold extract_text_from_url.
  now destruct (page_loop net url phrase lms (seq 0 3) (emit EvAcquire w)).
Qed.

(** C2 (as amended).  A fetch makes one to three attempts.  After an attempt
    that ends with status 429 or 500, or with a transport failure (at the
    request, or while the body of a response with status 200 is read), or
    with a body that the parser rejects, it sleeps [2 ^ attempt] seconds,
    the attempts being numbered from 0; an attempt that succeeds is
    followed by no delay.  An attempt that ends with another status than
    200, such as 404, is followed at once, without a delay, by the next
    attempt, within the same three attempts.  When all three attempts fail
    the result is the empty list, respectively [None]; no exception leaves
    the fetch.  This holds of the resolver on a URL that is not cached, and
    of the page fetcher. *)
Theorem fetch_retries_and_backoff (net : network) (url phrase : string) (w : world) :
  sitemap_cache w !! url = None ->
  (exists d,
      trace (snd (get_sitemap_links net url w)) = trace w ++ d
      /\ retry_protocol net url sitemap_success (requests w) (attempts_of d)
      /\ requests (snd (get_sitemap_links net url w)) = length (attempts_of d) + requests w
      /\ ((forall a, a < 3 -> sitemap_success (net (a + requests w) url) = false) ->
          fst (get_sitemap_links net url w) = Ret [] /\ length (attempts_of d) = 3)
      /\ forall e, fst (get_sitemap_links net url w) <> Raise e)
  /\ (exists d,
      trace (snd (extract_text_from_url net url phrase EmptyString w))
      = trace w ++ EvAcquire :: d ++ [EvRelease]
      /\ retry_protocol net url page_success (requests w) (attempts_of d)
      /\ requests (snd (extract_text_from_url net url phrase EmptyString w))
         = length (attempts_of d) + requests w
      /\ ((forall a, a < 3 -> page_success (net (a + requests w) url) = false) ->
          fst (extract_text_from_url net url phrase EmptyString w) = Ret None
          /\ length (attempts_of d) = 3)
      /\ forall e, fst (extract_text_from_url net url phrase EmptyString w) <> Raise e).
Proof.
  intros Miss. split.
  - unfold get_sitemap_links. rewrite Miss.
    destruct (sitemap_loop_run net url (seq 0 3) w)
      as (segs & T & AT & RQ & LE & GE & BK & _ & NX & EX & NR & _).
    exists (concat segs). rewrite AT. cbn [length seq] in *.
    assert (1 <= length segs) by (apply GE; discriminate).
    unfold retry_protocol. split_ands; auto.
    + intros a seg H'. apply (BK a seg a H').
      assert (a < length segs) as Ha by (apply nth_error_Some; congruence).
      destruct a as [|[|[|a]]]; try reflexivity; lia.
    + intros a Ha1 Ha2 F. apply NX; auto. lia.
    + intros F. destruct (EX F) as (? & ? & _). now split.
  - rewrite extract_text_from_url_unfold. cbn [fst snd].
    destruct (page_loop_run net url phrase EmptyString (seq 0 3) (emit EvAcquire w))
      as (segs & T & AT & RQ & LE & GE & BK & _ & NX & EX & NR & _).
    exists (concat segs). rewrite AT. cbn [length seq] in *.
    change (requests (emit EvAcquire w)) with (requests w) in *.
    assert (1 <= length segs) by (apply GE; discriminate).
    unfold retry_protocol. split_ands; auto.
    + rewrite trace_emit, T, trace_emit, <- !app_assoc. reflexivity.
    + intros a seg H'. apply (BK a seg a H').
      assert (a < length segs) as Ha by (apply nth_error_Some; congruence).
      destruct a as [|[|[|a]]]; try reflexivity; lia.
    + intros a Ha1 Ha2 F. apply NX; auto. lia.
    + intros F. destruct (EX F) as (? & ? & _). now split.
Qed.

Lemma fetch_retries_and_backoff_witness :
  sitemap_cache new_world !! sun_sitemap = None
  /\ exists d,
      trace (snd (get_sitemap_links net_unreadable sun_sitemap new_world)) = d
      /\ retry_protocol net_unreadable sun_sitemap sitemap_success 0 (attempts_of d)
      /\ nth_error (attempts_of d) 1
         = Some [EvGet sun_sitemap; EvLog (LogError sun_sitemap TransportError); EvSleep 2].
Proof.
  assert (sitemap_cache new_world !! sun_sitemap = None) as Miss
      by (vm_compute; reflexivity).
  split; [exact Miss|].
  destruct (fetch_retries_and_backoff net_unreadable sun_sitemap "dishy rishi"
              new_world Miss) as [(d & T & RP & _ & Three & _) _].
  exists d. split; [exact T|]. split; [exact RP|].
  destruct (Three ltac:(intros a _; reflexivity)) as [_ L].
  destruct RP as (_ & BK & _).
  destruct (nth_error (attempts_of d) 1) as [seg|] eqn:N.
  - f_equal. exact (BK 1 seg N).
  - apply nth_error_None in N. lia.
Defined.

(** C2, as stated, fails: an attempt that ends with status 404 is retried.
    With a network that always answers 404 both fetches make three
    requests in a row. *)
Lemma status_404_is_retried :
  trace (snd (get_sitemap_links (net_status 404) sun_sitemap new_world))
  = [EvGet sun_sitemap; EvGet sun_sitemap; EvGet sun_sitemap]
  /\ trace (snd (extract_text_from_url (net_status 404) sun_article "dishy rishi" EmptyString
                   new_world))
     = [EvAcquire; EvGet sun_article; EvGet sun_article; EvGet sun_article; EvRelease].
Proof. split; vm_compute; reflexivity. Qed.

(** ** The cache of the resolver *)

Lemma sitemap_loop_cache (net : network) (url : string) (attempts : list nat) :
  forall w,
    let out := sitemap_loop net url attempts w in
    (exists links,
        fst out = Ret links
        /\ (sitemap_cache (snd out) = <[url := links]> (sitemap_cache w)
            \/ (links = []
                /\ sitemap_cache (snd out) = sitemap_cache w
                /\ requests (snd out) = length attempts + requests w)))
    /\ (forall i tree html,
          i < length attempts ->
          (forall j, j < i -> sitemap_success (net (j + requests w) url) = false) ->
          net (i + requests w) url = Response 200 (Body (Some tree) html) ->
          fst out = Ret (sitemap_links tree)
          /\ sitemap_cache (snd out) = <[url := sitemap_links tree]> (sitemap_cache w)
          /\ requests (snd out) = S i + requests w).
Proof.
  induction attempts as [|a rest IH]; intros w.
  - cbn. split; [exists []; split; [reflexivity|right; auto]|]. intros; lia.
  - destruct (sitemap_success (net (requests w) url)) eqn:S0.
    + destruct (sitemap_success_inv _ S0) as (tree & html & E).
      cbv zeta. rewrite (sitemap_loop_success net url a rest w tree html E). cbn [fst snd].
      split; [exists (sitemap_links tree); split; [reflexivity|left; reflexivity]|].
      intros [|i] tree' html' Hi F E'.
      * cbn in E'. rewrite E in E'. injection E' as <- <-. auto.
      * specialize (F 0 ltac:(lia)). cbn in F. congruence.
    + cbv zeta. rewrite (sitemap_loop_failed net url a rest w S0).
      set (w1 := failed_attempt url a (net (requests w) url) w).
      destruct (IH w1) as [(links & E & C) SU]. split.
      * exists links. split; [exact E|].
        destruct C as [C|(L & C & R)]; [left; exact C|right].
        split_ands; auto. rewrite R. cbn. lia.
      * intros [|i] tree html Hi F E'.
        -- cbn in E'. rewrite E' in S0. cbn in S0. discriminate.
        -- assert (forall k, net (k + requests w1) url = net (S k + requests w) url) as SH.
           { intros k. cbn. now rewrite Nat.add_succ_r. }
           destruct (SU i tree html) as (R1 & R2 & R3).
           ++ cbn in Hi. lia.
           ++ intros j Hj. rewrite SH. apply F. lia.
           ++ now rewrite SH.
           ++ split_ands; auto. rewrite R3. cbn. lia.
Qed.

Lemma get_sitemap_links_hit (net : network) (url : string) (w : world)
    (links : list (option string)) :
  sitemap_cache w !! url = Some links -> get_sitemap_links net url w = (Ret links, w).
Proof. unfold get_sitemap_links. now intros ->. Qed.

Lemma get_sitemap_links_miss (net : network) (url : string) (w : world) :
  sitemap_cache w !! url = None ->
  get_sitemap_links net url w = sitemap_loop net url (seq 0 3) w.
Proof. unfold get_sitemap_links. now intros ->. Qed.

(** C4 (as amended).  When an attempt gets status 200 and a document
    that parses, the resolver stores the links in the cache before it
    returns them, also when there are none; a URL that is in the cache
    is resolved from it, without a request, whatever the network would
    answer.  When all three attempts fail the resolver returns the empty
    list and stores nothing. *)
Theorem resolve_caches_successful_result (net : network) (url : string) (w : world) :
  let out := get_sitemap_links net url w in
  (forall i tree html,
      sitemap_cache w !! url = None ->
      i < 3 ->
      (forall j, j < i -> sitemap_success (net (j + requests w) url) = false) ->
      net (i + requests w) url = Response 200 (Body (Some tree) html) ->
      fst out = Ret (sitemap_links tree)
      /\ sitemap_cache (snd out) !! url = Some (sitemap_links tree))
  /\ (forall links, sitemap_cache w !! url = Some links -> out = (Ret links, w))
  /\ (forall net2 links,
        sitemap_cache (snd out) !! url = Some links ->
        fst out = Ret links
        /\ get_sitemap_links net2 url (snd out) = (Ret links, snd out))
  /\ (sitemap_cache w !! url = None ->
      (forall i, i < 3 -> sitemap_success (net (i + requests w) url) = false) ->
      fst out = Ret []
      /\ sitemap_cache (snd out) = sitemap_cache w
      /\ requests (snd out) = 3 + requests w).
Proof.
  cbv zeta.
  destruct (sitemap_cache w !! url) as [cached|] eqn:C.
  - rewrite (get_sitemap_links_hit net url w cached C).
    cbn [fst snd]. split_ands; try discriminate.
    + intros links E. now injection E as <-.
    + intros net2 links E. rewrite C in E. injection E as <-.
      split; [reflexivity|]. unfold get_sitemap_links. now rewrite C.
  - rewrite (get_sitemap_links_miss net url w C).
    destruct (sitemap_loop_cache net url (seq 0 3) w) as [(links & E & CA) SU].
    split_ands; try discriminate.
    + intros i tree html _ Hi F E'.
      destruct (SU i tree html Hi F E') as (R1 & R2 & _).
      split; [exact R1|]. rewrite R2. apply lookup_insert_eq.
    + intros net2 links' E'.
      destruct CA as [CA|(L & CA & _)].
      * rewrite CA, lookup_insert_eq in E'. injection E' as <-.
        split; [exact E|]. unfold get_sitemap_links.
        now rewrite CA, lookup_insert_eq.
      * rewrite CA, C in E'. discriminate.
    + intros _ F.
      destruct (sitemap_loop_run net url (seq 0 3) w)
        as (segs & _ & _ & RQ & _ & _ & _ & _ & _ & EX & _).
      destruct (EX F) as (R1 & R2 & R3 & _).
      split; [exact R1|]. split; [exact R3|]. rewrite RQ, R2. reflexivity.
Qed.

Lemma resolve_caches_successful_result_witness :
  sitemap_cache new_world !! sun_sitemap = None
  /\ 0 < 3
  /\ net_xml mixed_sitemap (0 + requests new_world) sun_sitemap
     = Response 200 (Body (Some mixed_sitemap) None)
  /\ sitemap_cache (snd (get_sitemap_links (net_xml mixed_sitemap) sun_sitemap new_world))
       !! sun_sitemap = Some (sitemap_links mixed_sitemap).
Proof.
  assert (sitemap_cache new_world !! sun_sitemap = None) as Miss
      by (vm_compute; reflexivity).
  split_ands; [exact Miss | lia | reflexivity |].
  pose proof (resolve_caches_successful_result (net_xml mixed_sitemap) sun_sitemap
                new_world) as H.
  cbv zeta in H. destruct H as (H & _).
  apply (H 0 mixed_sitemap None).
  - exact Miss.
  - lia.
  - intros j Hj. lia.
  - reflexivity.
Defined.

(** C4, as stated, fails: with a network that always answers 500 the
    first resolution returns the empty list and stores nothing, and the
    second resolution makes three more requests. *)
Lemma failed_resolution_is_not_cached :
  fst (get_sitemap_links (net_status 500) sun_sitemap new_world) = Ret []
  /\ sitemap_cache (snd (get_sitemap_links (net_status 500) sun_sitemap new_world))
       !! sun_sitemap = None
  /\ requests (snd (get_sitemap_links (net_status 500) sun_sitemap new_world)) = 3
  /\ requests (snd (get_sitemap_links (net_status 500) sun_sitemap
                      (snd (get_sitemap_links (net_status 500) sun_sitemap new_world))))
     = 6.
Proof. split_ands; vm_compute; reflexivity. Qed.

(** ** The semaphore *)

Lemma get_sitemap_links_events (net : network) (url : string) (w : world) :
  exists d,
    trace (snd (get_sitemap_links net url w)) = trace w ++ d
    /\ forallb is_loop_event d = true.
Proof.
  destruct (sitemap_cache w !! url) as [links|] eqn:C.
  - rewrite (get_sitemap_links_hit net url w links C). exists [].
    cbn. now rewrite app_nil_r.
  - rewrite (get_sitemap_links_miss net url w C).
    destruct (sitemap_loop_run net url (seq 0 3) w) as (segs & T & H).
    exists (concat segs). split; [exact T|]. tauto.
Qed.

(** C5 (as amended).  The page fetcher enters the semaphore before its
    first attempt and leaves it after its last: every request, parse,
    match, put and delay of the fetch happens inside.  The resolver
    neither enters nor leaves the semaphore.  The capacity is 50. *)
Theorem semaphore_encloses_page_fetch (net : network) (url phrase lms : string)
    (w : world) :
  (exists d,
      trace (snd (extract_text_from_url net url phrase lms w))
      = trace w ++ EvAcquire :: d ++ [EvRelease]
      /\ forallb is_loop_event d = true
      /\ (page_success (net (requests w) url) = true ->
          In (EvParse url) d /\ In (EvMatch url) d))
  /\ (exists d,
        trace (snd (get_sitemap_links net url w)) = trace w ++ d
        /\ forallb is_loop_event d = true)
  /\ semaphore_capacity = 50.
Proof.
  split_ands; [|apply get_sitemap_links_events|reflexivity].
  rewrite extract_text_from_url_unfold. cbn [snd].
  destruct (page_success (net (requests w) url)) eqn:S0.
  - destruct (page_success_inv _ S0) as (xml & sp & E).
    destruct (page_loop_success net url phrase lms 0 [1; 2] (emit EvAcquire w) xml sp E)
      as (r & q & work & E' & W & M).
    exists (EvGet url :: EvParse url :: work). cbn [seq]. rewrite E'. cbn.
    destruct (page_work_events work W) as [_ ->].
    split; [|split].
    + rewrite <- !app_assoc. reflexivity.
    + reflexivity.
    + intros _. split; [right; now left|right; right; exact M].
  - destruct (page_loop_run net url phrase lms (seq 0 3) (emit EvAcquire w))
      as (segs & T & H).
    exists (concat segs). split_ands; [|tauto|discriminate].
    rewrite trace_emit, T, trace_emit, <- !app_assoc. reflexivity.
Qed.

Lemma semaphore_encloses_page_fetch_witness :
  page_success (net_page sample_page (requests new_world) sun_article) = true
  /\ exists d,
      trace (snd (extract_text_from_url (net_page sample_page) sun_article
                    "dishy rishi" EmptyString new_world))
      = trace new_world ++ EvAcquire :: d ++ [EvRelease]
      /\ In (EvParse sun_article) d /\ In (EvMatch sun_article) d.
Proof.
  assert (page_success (net_page sample_page (requests new_world) sun_article) = true)
    as S0 by reflexivity.
  split; [exact S0|].
  destruct (semaphore_encloses_page_fetch (net_page sample_page) sun_article
              "dishy rishi" EmptyString new_world) as ((d & T & _ & PM) & _).
  exists d. split; [exact T|]. exact (PM S0).
Defined.

(** C5, as stated, fails.  The page fetcher parses and matches while it
    holds the semaphore, and the resolver makes its request without
    it. *)
Lemma parsing_and_matching_hold_the_semaphore :
  trace (snd (extract_text_from_url (net_page sample_page) sun_article
                "dishy rishi" EmptyString new_world))
  = [EvAcquire; EvGet sun_article; EvParse sun_article; EvLog (LogMonth "2025-03");
     EvMatch sun_article;
     EvPut {| a_url := sun_article; a_title := Some "Story"; a_phrase := "dishy rishi";
              a_count := 2; a_date := "2025-03-14" |};
     EvRelease]
  /\ limiter_around_requests_only 0
       (trace (snd (extract_text_from_url (net_page sample_page) sun_article
                      "dishy rishi" EmptyString new_world))) = false
  /\ trace (snd (get_sitemap_links (net_xml mixed_sitemap) sun_sitemap new_world))
     = [EvGet sun_sitemap; EvParse sun_sitemap]
  /\ limiter_around_requests_only 0
       (trace (snd (get_sitemap_links (net_xml mixed_sitemap) sun_sitemap new_world)))
     = false.
Proof. split_ands; vm_compute; reflexivity. Qed.

(** ** Malformed documents *)

(** C6 (as amended).  No exception leaves a fetch.  When the body of a
    response with status 200 is a document that the parser rejects, the
    exception is caught in the fetch: it is logged, the fetch sleeps
    [2 ^ attempt] seconds and goes on to the next attempt; when this
    happens in all three attempts the result is the empty list,
    respectively [None]. *)
Theorem parse_failure_is_caught (net : network) (url phrase lms : string) (w : world) :
  (forall e, fst (get_sitemap_links net url w) <> Raise e)
  /\ (forall e, fst (extract_text_from_url net url phrase lms w) <> Raise e)
  /\ (sitemap_cache w !! url = None ->
      exists d,
        trace (snd (get_sitemap_links net url w)) = trace w ++ d
        /\ (forall a seg html,
              nth_error (attempts_of d) a = Some seg ->
              net (a + requests w) url = Response 200 (Body None html) ->
              seg = [EvGet url; EvParse url; EvLog (LogError url ParseError);
                     EvSleep (2 ^ a)])
        /\ ((forall a, a < 3 ->
                       exists html, net (a + requests w) url = Response 200 (Body None html)) ->
            fst (get_sitemap_links net url w) = Ret []
            /\ length (attempts_of d) = 3))
  /\ (exists d,
        trace (snd (extract_text_from_url net url phrase lms w))
        = trace w ++ EvAcquire :: d ++ [EvRelease]
        /\ (forall a seg xml,
              nth_error (attempts_of d) a = Some seg ->
              net (a + requests w) url = Response 200 (Body xml None) ->
              seg = [EvGet url; EvParse url; EvLog (LogError url ParseError);
                     EvSleep (2 ^ a)])
        /\ ((forall a, a < 3 ->
                       exists xml, net (a + requests w) url = Response 200 (Body xml None)) ->
            fst (extract_text_from_url net url phrase lms w) = Ret None
            /\ length (attempts_of d) = 3)).
Proof.
  split_ands.
  - intros e. destruct (sitemap_cache w !! url) as [links|] eqn:C.
    + now rewrite (get_sitemap_links_hit net url w links C).
    + rewrite (get_sitemap_links_miss net url w C).
      destruct (sitemap_loop_run net url (seq 0 3) w) as (segs & H). apply H.
  - intros e. rewrite extract_text_from_url_unfold. cbn [fst].
    destruct (page_loop_run net url phrase lms (seq 0 3) (emit EvAcquire w))
      as (segs & H). apply H.
  - intros C. rewrite (get_sitemap_links_miss net url w C).
    destruct (sitemap_loop_run net url (seq 0 3) w)
      as (segs & T & AT & _ & _ & _ & _ & SG & _ & EX & _).
    exists (concat segs). rewrite AT. split_ands; [exact T| |].
    + intros a seg html H E.
      assert (a < length (seq 0 3)) as Ha.
      { destruct (sitemap_loop_run net url (seq 0 3) w) as (segs' & T' & AT' & _ & LE & _).
        assert (segs' = segs) as -> by (rewrite <- AT, <- AT'; f_equal;
          apply (app_inv_head (trace w)); congruence).
        assert (a < length segs) by (apply nth_error_Some; congruence). lia. }
      destruct (nth_error (seq 0 3) a) as [a'|] eqn:Na;
        [|apply nth_error_None in Na; lia].
      pose proof (nth_error_seq_0 _ _ _ Na) as ->.
      rewrite (SG a seg a H Na); rewrite E; reflexivity.
    + intros F. destruct EX as (R1 & R2 & _); [|now split].
      intros i Hi. cbn in Hi. destruct (F i Hi) as [html ->]. reflexivity.
  - rewrite extract_text_from_url_unfold. cbn [fst snd].
    destruct (page_loop_run net url phrase lms (seq 0 3) (emit EvAcquire w))
      as (segs & T & AT & _ & LE & _ & _ & SG & _ & EX & _).
    change (requests (emit EvAcquire w)) with (requests w) in *.
    exists (concat segs). rewrite AT. split_ands.
    + rewrite trace_emit, T, trace_emit, <- !app_assoc. reflexivity.
    + intros a seg xml H E.
      assert (a < length segs) as Ha by (apply nth_error_Some; congruence).
      destruct (nth_error (seq 0 3) a) as [a'|] eqn:Na;
        [|apply nth_error_None in Na; lia].
      pose proof (nth_error_seq_0 _ _ _ Na) as ->.
      rewrite (SG a seg a H Na); rewrite E; reflexivity.
    + intros F. destruct EX as (R1 & R2 & _); [|now split].
      intros i Hi. cbn in Hi. destruct (F i Hi) as [xml ->]. reflexivity.
Qed.

Lemma parse_failure_is_caught_witness :
  sitemap_cache new_world !! sun_sitemap = None
  /\ (forall a, a < 3 ->
        exists html,
          net_status 200 (a + requests new_world) sun_sitemap
          = Response 200 (Body None html))
  /\ fst (get_sitemap_links (net_status 200) sun_sitemap new_world) = Ret [].
Proof.
  assert (sitemap_cache new_world !! sun_sitemap = None) as Miss
      by (vm_compute; reflexivity).
  assert (forall a, a < 3 ->
            exists html,
              net_status 200 (a + requests new_world) sun_sitemap
              = Response 200 (Body None html)) as Bad
      by (intros a _; exists None; reflexivity).
  split_ands; [exact Miss | exact Bad |].
  destruct (parse_failure_is_caught (net_status 200) sun_sitemap "dishy rishi" EmptyString
              new_world) as (_ & _ & H & _).
  destruct (H Miss) as (d & _ & _ & R). exact (proj1 (R Bad)).
Defined.

(** C6, as stated, fails.  With a network whose documents no parser
    accepts, each fetch catches the exception three times and returns the
    empty list, respectively [None]. *)
Lemma malformed_document_gives_no_result :
  fst (get_sitemap_links (net_status 200) sun_sitemap new_world) = Ret []
  /\ trace (snd (get_sitemap_links (net_status 200) sun_sitemap new_world))
     = [EvGet sun_sitemap; EvParse sun_sitemap;
        EvLog (LogError sun_sitemap ParseError); EvSleep 1;
        EvGet sun_sitemap; EvParse sun_sitemap;
        EvLog (LogError sun_sitemap ParseError); EvSleep 2;
        EvGet sun_sitemap; EvParse sun_sitemap;
        EvLog (LogError sun_sitemap ParseError); EvSleep 4]
  /\ fst (extract_text_from_url (net_status 200) sun_article "dishy rishi" EmptyString new_world)
     = Ret None.
Proof. split_ands; vm_compute; reflexivity. Qed.

(** ** Leaf entries and index entries *)

(** C9.  When the document of the attempt that succeeds has both
    [url/loc] entries and [sitemap/loc] entries, the resolver returns the
    texts of the [url/loc] entries. *)
Theorem resolve_prefers_leaf_entries (net : network) (url : string) (w : world)
    (i : nat) (tree : element) (html : option soup) :
  sitemap_cache w !! url = None ->
  i < 3 ->
  (forall j, j < i -> sitemap_success (net (j + requests w) url) = false) ->
  net (i + requests w) url = Response 200 (Body (Some tree) html) ->
  findall_path tree (ns "url") (ns "loc") <> [] ->
  findall_path tree (ns "sitemap") (ns "loc") <> [] ->
  fst (get_sitemap_links net url w)
  = Ret (map text_of (findall_path tree (ns "url") (ns "loc"))).
Proof.
  intros C Hi F E Leaf Index.
  rewrite (get_sitemap_links_miss net url w C).
  destruct (sitemap_loop_cache net url (seq 0 3) w) as [_ SU].
  destruct (SU i tree html Hi F E) as (-> & _).
  unfold sitemap_links, ns in *.
  now destruct (findall_path tree (String.append namespace "url")
                  (String.append namespace "loc")).
Qed.

Lemma resolve_prefers_leaf_entries_witness :
  fst (get_sitemap_links (net_xml mixed_sitemap) sun_sitemap new_world)
  = Ret [Some "https://www.thesun.co.uk/news/1/"; Some "https://www.thesun.co.uk/news/2/"].
Proof.
  apply (resolve_prefers_leaf_entries (net_xml mixed_sitemap) sun_sitemap new_world
           0 mixed_sitemap None).
  - vm_compute; reflexivity.
  - lia.
  - intros j Hj. lia.
  - reflexivity.
  - vm_compute. discriminate.
  - vm_compute. discriminate.
Defined.

(** ** Searching a pattern of fixed width *)

Lemma split_match_app (ps1 ps2 : list (ascii -> bool)) (s : list ascii) :
  split_match (ps1 ++ ps2) s
  = match split_match ps1 s with
    | Some (m1, rest1) =>
        match split_match ps2 rest1 with
        | Some (m2, rest2) => Some (m1 ++ m2, rest2)
        | None => None
        end
    | None => None
    end.
Proof.
  revert s. induction ps1 as [|p ps1 IH]; intros s; cbn [app split_match].
  - now destruct (split_match ps2 s) as [[m2 rest2]|].
  - destruct s as [|c s]; [reflexivity|]. destruct (p c); [|reflexivity].
    rewrite IH. destruct (split_match ps1 s) as [[m1 rest1]|]; [|reflexivity].
    now destruct (split_match ps2 rest1) as [[m2 rest2]|].
Qed.

Lemma split_match_sound (ps : list (ascii -> bool)) :
  forall s m rest,
    split_match ps s = Some (m, rest) ->
    s = m ++ rest /\ Forall2 (fun p c => p c = true) ps m.
Proof.
  induction ps as [|p ps IH]; intros s m rest H; cbn in H.
  - injection H as <- <-. split; [reflexivity|constructor].
  - destruct s as [|c s]; [discriminate|]. destruct (p c) eqn:Pc; [|discriminate].
    destruct (split_match ps s) as [[m' rest']|] eqn:E; [|discriminate].
    injection H as <- <-. destruct (IH _ _ _ E) as [-> F].
    split; [reflexivity|now constructor].
Qed.

Lemma split_match_complete (ps : list (ascii -> bool)) :
  forall m rest,
    Forall2 (fun p c => p c = true) ps m ->
    split_match ps (m ++ rest) = Some (m, rest).
Proof.
  induction ps as [|p ps IH]; intros m rest F; inversion F; subst; cbn.
  - reflexivity.
  - rewrite H1. now rewrite IH.
Qed.

Lemma ends_fixed (ic : bool) (r : regex) :
  forall ps b s,
    fixed_classes ic r = Some ps ->
    ends ic r (b, s)
    = match split_match ps s with
      | Some (m, rest) => [(rev m ++ b, rest)]
      | None => []
      end.
Proof.
  induction r as [|c|p|r1 IH1 r2 IH2| | | | | |]; intros ps b s H; cbn in H;
    try discriminate.
  - injection H as <-. reflexivity.
  - injection H as <-. cbn. destruct s as [|x s]; [reflexivity|].
    now destruct (chr_matches ic c x).
  - injection H as <-. cbn. destruct s as [|x s]; [reflexivity|].
    now destruct (p x).
  - destruct (fixed_classes ic r1) as [ps1|]; [|discriminate].
    destruct (fixed_classes ic r2) as [ps2|]; [|discriminate].
    injection H as <-. cbn [ends]. rewrite (IH1 ps1 b s eq_refl), split_match_app.
    destruct (split_match ps1 s) as [[m1 rest1]|]; [|reflexivity].
    cbn [flat_map]. rewrite (IH2 ps2 _ rest1 eq_refl), app_nil_r.
    destruct (split_match ps2 rest1) as [[m2 rest2]|]; [|reflexivity].
    now rewrite rev_app_distr, <- app_assoc.
Qed.

(** [re.search] with a pattern of fixed width finds the leftmost place
    where the classes match. *)
Lemma search_from_fixed (ic : bool) (r : regex) (ps : list (ascii -> bool)) :
  fixed_classes ic r = Some ps ->
  forall s b,
    match search_from ic r b s with
    | Some (b', m, rest) =>
        exists pre,
          s = pre ++ m ++ rest
          /\ b' = rev pre ++ b
          /\ split_match ps (m ++ rest) = Some (m, rest)
          /\ (forall pre2 tail,
                s = pre2 ++ tail -> length pre2 < length pre ->
                split_match ps tail = None)
    | None => forall pre tail, s = pre ++ tail -> split_match ps tail = None
    end.
Proof.
  intros F.
  assert (forall s b m rest,
             split_match ps s = Some (m, rest) ->
             exists pre,
               s = pre ++ firstn (consumed s (rev m ++ b, rest)) s ++ rest
               /\ b = rev pre ++ b
               /\ split_match ps (firstn (consumed s (rev m ++ b, rest)) s ++ rest)
                  = Some (firstn (consumed s (rev m ++ b, rest)) s, rest)
               /\ (forall pre2 tail,
                     s = pre2 ++ tail -> length pre2 < length pre ->
                     split_match ps tail = None)) as Here.
  { intros s b m rest E. destruct (split_match_sound _ _ _ _ E) as [E' _].
    unfold consumed. cbn [snd]. rewrite E' in *.
    replace (length (m ++ rest) - length rest) with (length m)
      by (rewrite length_app; lia).
    rewrite firstn_app, Nat.sub_diag, firstn_all, firstn_O, app_nil_r.
    exists []. split_ands; auto. intros; cbn in *; lia. }
  induction s as [|c s IH]; intros b; cbn [search_from];
    rewrite (ends_fixed ic r ps _ _ F).
  - destruct (split_match ps []) as [[m rest]|] eqn:E.
    + cbn [snd]. now apply Here.
    + intros pre tail H. symmetry in H. apply app_eq_nil in H as [-> ->]. exact E.
  - destruct (split_match ps (c :: s)) as [[m rest]|] eqn:E.
    + cbn [snd]. now apply Here.
    + specialize (IH (c :: b)).
      destruct (search_from ic r (c :: b) s) as [[[b' m] rest]|].
      * destruct IH as (pre & -> & -> & SM & LM). exists (c :: pre).
        split_ands; auto.
        -- cbn. now rewrite <- app_assoc.
        -- intros [|x pre2] tail H L.
           ++ cbn in H. now subst tail.
           ++ cbn in H. injection H as <- H. apply (LM pre2 tail H). cbn in L. lia.
      * intros [|x pre] tail H.
        -- cbn in H. now subst tail.
        -- cbn in H. injection H as <- H. now apply (IH pre tail).
Qed.

(** ** The filter on the year *)

Lemma Forall2_repeat (p : ascii -> bool) (n : nat) (m : list ascii) :
  Forall2 (fun q c => q c = true) (repeat p n) m
  <-> length m = n /\ forallb p m = true.
Proof.
  revert m. induction n as [|n IH]; intros m; cbn; split.
  - intros H. inversion H. auto.
  - intros [H _]. destruct m; [constructor|discriminate].
  - intros H. inversion H as [|q c ps m' Pc F]; subst. apply IH in F as [L A].
    cbn. rewrite Pc, A, L. auto.
  - intros [L A]. destruct m as [|c m]; [discriminate|]. cbn in *.
    apply andb_prop in A as [Pc A]. constructor; [exact Pc|]. apply IH. split; [lia|exact A].
Qed.

Lemma app_inj_length {A : Type} (a b x y : list A) :
  length a = length b -> a ++ x = b ++ y -> a = b /\ x = y.
Proof.
  revert b. induction a as [|h a IH]; intros [|k b] L E; try discriminate.
  - auto.
  - cbn in *. injection E as -> E. injection L as L.
    destruct (IH b L E) as [-> ->]. auto.
Qed.

Lemma four_digits_at_match (s pre y post : list ascii) :
  four_digits_at s pre y post
  <-> s = pre ++ y ++ post /\ split_match (repeat is_digit 4) (y ++ post) = Some (y, post).
Proof.
  unfold four_digits_at. split.
  - intros (E & L & D). split; [exact E|].
    apply split_match_complete, Forall2_repeat. auto.
  - intros (E & M). split; [exact E|].
    apply split_match_sound in M as [_ F]. now apply Forall2_repeat in F.
Qed.

Lemma year_pattern_classes : fixed_classes false year_pattern = Some (repeat is_digit 4).
Proof. reflexivity. Qed.

Lemma year_in_range_iff (year_from year_to : Z) (link : string) :
  year_in_range year_from year_to link = true
  <-> first_year_in_range year_from year_to link.
Proof.
  unfold year_in_range, first_year_in_range, re_search. fold (chars link).
  pose proof (search_from_fixed false year_pattern _ year_pattern_classes (chars link) [])
    as S.
  destruct (search_from false year_pattern [] (chars link)) as [[[b' m] rest]|].
  - destruct S as (pre & E & _ & SM & LM).
    assert (four_digits_at (chars link) pre m rest) as FD
        by (apply four_digits_at_match; auto).
    assert (forall pre' y' post',
               four_digits_at (chars link) pre' y' post' -> length pre <= length pre') as LM'.
    { intros pre' y' post' FD'. apply four_digits_at_match in FD' as [E' SM'].
      destruct (Nat.le_gt_cases (length pre) (length pre')) as [|L]; [assumption|].
      rewrite (LM pre' (y' ++ post') E' L) in SM'. discriminate. }
    split.
    + intros R. apply andb_prop in R as [R1 R2].
      apply Z.leb_le in R1. apply Z.leb_le in R2.
      exists pre, m, rest. auto.
    + intros (pre0 & y0 & post0 & FD0 & LM0 & R).
      assert (length pre0 = length pre) as L.
      { apply Nat.le_antisymm; [now apply (LM0 pre m rest)|now apply (LM' pre0 y0 post0)]. }
      destruct FD0 as (E0 & L0 & _). destruct FD as (_ & L1 & _).
      rewrite E in E0. destruct (app_inj_length _ _ _ _ (eq_sym L) E0) as [_ E1].
      destruct (app_inj_length m y0 rest post0 ltac:(congruence) E1) as [-> _].
      apply andb_true_intro. split; apply Z.leb_le; lia.
  - split; [discriminate|].
    intros (pre0 & y0 & post0 & FD0 & _).
    apply four_digits_at_match in FD0 as [E0 SM0].
    rewrite (S pre0 (y0 ++ post0) E0) in SM0. discriminate.
Qed.

Lemma get_sitemap_links_spec (net : network) (url : string) (w : world) :
  exists links w' d,
    get_sitemap_links net url w = (Ret links, w')
    /\ trace w' = trace w ++ d
    /\ forallb is_loop_event d = true
    /\ (forall u, In u (requested d) -> u = url).
Proof.
  destruct (sitemap_cache w !! url) as [links|] eqn:C.
  - rewrite (get_sitemap_links_hit net url w links C).
    exists links, w, []. cbn. rewrite app_nil_r. split_ands; auto. intros u [].
  - rewrite (get_sitemap_links_miss net url w C).
    destruct (sitemap_loop_run net url (seq 0 3) w)
      as (segs & T & _ & _ & _ & _ & _ & _ & _ & _ & NR & LP & RD).
    destruct (sitemap_loop net url (seq 0 3) w) as [[links|e] w'] eqn:E.
    + exists links, w', (concat segs). split_ands; auto.
      intros u Hu. rewrite RD in Hu. now apply repeat_spec in Hu.
    + now destruct (NR e).
Qed.

Lemma sitemap_loop_queue (net : network) (url : string) (attempts : list nat) :
  forall w, queue (snd (sitemap_loop net url attempts w)) = queue w.
Proof.
  induction attempts as [|a rest IH]; intros w; [reflexivity|].
  destruct (sitemap_success (net (requests w) url)) eqn:S0.
  - destruct (sitemap_success_inv _ S0) as (tree & html & E).
    now rewrite (sitemap_loop_success net url a rest w tree html E).
  - rewrite (sitemap_loop_failed net url a rest w S0). now rewrite IH.
Qed.

Lemma get_sitemap_links_frame (net : network) (url : string) (w : world) :
  (forall u l, sitemap_cache w !! u = Some l ->
               sitemap_cache (snd (get_sitemap_links net url w)) !! u = Some l)
  /\ (forall u, u <> url ->
                sitemap_cache (snd (get_sitemap_links net url w)) !! u = sitemap_cache w !! u)
  /\ queue (snd (get_sitemap_links net url w)) = queue w.
Proof.
  destruct (sitemap_cache w !! url) as [cached|] eqn:C.
  - rewrite (get_sitemap_links_hit net url w cached C). cbn. auto.
  - rewrite (get_sitemap_links_miss net url w C).
    destruct (sitemap_loop_cache net url (seq 0 3) w) as [(links & _ & CA) _].
    split_ands.
    + intros u l H. destruct CA as [->|(_ & -> & _)]; [|exact H].
      rewrite lookup_insert_ne; [exact H|]. intros <-. congruence.
    + intros u Ne. destruct CA as [->|(_ & -> & _)]; [|reflexivity].
      now rewrite lookup_insert_ne.
    + apply sitemap_loop_queue.
Qed.

Lemma read_sitemaps_spec (net : network) (sitemaps : list string) :
  forall w,
  exists urls w' d,
    read_sitemaps net sitemaps w = (Ret urls, w')
    /\ trace w' = trace w ++ d
    /\ sitemaps_read d = sitemaps
    /\ (forall u, In u (requested d) -> In u sitemaps).
Proof.
  induction sitemaps as [|sm rest IH]; intros w.
  - exists [], w, []. cbn. rewrite app_nil_r. split_ands; auto.
  - cbn [read_sitemaps]. unfold bind at 1.
    destruct (get_sitemap_links_spec net sm (emit (EvLog (LogReading sm)) w))
      as (links & w1 & d1 & E1 & T1 & L1 & R1).
    rewrite E1. unfold bind at 1.
    destruct (IH w1) as (more & w2 & d2 & E2 & T2 & S2 & R2).
    rewrite E2. unfold ret.
    exists (links ++ more), w2, (EvLog (LogReading sm) :: d1 ++ d2).
    split_ands; auto.
    + rewrite T2, T1, trace_emit, <- !app_assoc. reflexivity.
    + cbn. now rewrite sitemaps_read_app, (sitemaps_read_loop_events d1 L1), S2.
    + intros u Hu. cbn in Hu. rewrite requested_app in Hu.
      apply in_app_or in Hu as [Hu|Hu]; [left; symmetry; now apply R1|right; now apply R2].
Qed.

Lemma filter_by_year_texts (year_from year_to : Z) (texts : list string) :
  filter_by_year year_from year_to (map Some texts)
  = Ret (List.filter (year_in_range year_from year_to) texts).
Proof.
  induction texts as [|l texts IH]; [reflexivity|].
  cbn [map filter_by_year List.filter]. rewrite IH.
  now destruct (year_in_range year_from year_to l).
Qed.

Lemma filter_by_year_none (year_from year_to : Z) (links : list (option string)) :
  In None links -> filter_by_year year_from year_to links = Raise TypeError.
Proof.
  induction links as [|[l|] links IH]; intros H; [destruct H| |reflexivity].
  cbn [filter_by_year]. destruct H as [H|H]; [discriminate H|]. now rewrite IH.
Qed.

Lemma links_with_text (links : list (option string)) :
  In None links \/ exists texts, links = map Some texts.
Proof.
  induction links as [|[l|] links IH].
  - right. now exists [].
  - destruct IH as [H|[texts ->]]; [left; now right|right]. now exists (l :: texts).
  - left. now left.
Qed.






(** ** [extract_date] *)

Lemma url_date_pattern_classes :
  fixed_classes false url_date_pattern = Some date_classes.
Proof. reflexivity. Qed.

Lemma date_classes_match (tail mt rest : list ascii) :
  split_match date_classes tail = Some (mt, rest) ->
  exists y m d,
    mt = y ++ slash :: m ++ slash :: d
    /\ length y = 4 /\ length m = 2 /\ length d = 2
    /\ forallb is_digit (y ++ m ++ d) = true
    /\ string_of_list_ascii
         (firstn 4 mt ++ hyphen :: firstn 2 (skipn 5 mt) ++ hyphen :: firstn 2 (skipn 8 mt))
       = hyphenated y m d.
Proof.
  intros H. apply split_match_sound in H as [_ F]. unfold date_classes in F. cbn in F.
  repeat match goal with
         | H : Forall2 _ (_ :: _) _ |- _ => inversion H; clear H; subst
         | H : Forall2 _ [] _ |- _ => inversion H; clear H; subst
         end.
  repeat match goal with
         | H : chr_matches false slash _ = true |- _ =>
             cbn in H; apply Ascii.eqb_eq in H; subst
         end.
  match goal with
  | |- context [[?c1; ?c2; ?c3; ?c4; _; ?c6; ?c7; _; ?c9; ?c10]] =>
      exists [c1; c2; c3; c4], [c6; c7], [c9; c10]
  end.
  cbn. repeat match goal with H : is_digit _ = true |- _ => rewrite H; clear H end.
  split_ands; reflexivity.
Qed.

Lemma date_at_match (s pre y m d post : list ascii) :
  date_at s pre y m d post ->
  s = pre ++ (y ++ slash :: m ++ slash :: d) ++ post
  /\ split_match date_classes ((y ++ slash :: m ++ slash :: d) ++ post)
     = Some (y ++ slash :: m ++ slash :: d, post).
Proof.
  intros (E & Ly & Lm & Ld & D).
  destruct y as [|y1 [|y2 [|y3 [|y4 [|]]]]]; try discriminate.
  destruct m as [|m1 [|m2 [|]]]; try discriminate.
  destruct d as [|d1 [|d2 [|]]]; try discriminate.
  cbn in D. repeat (apply andb_prop in D as [? D]).
  split; [subst s; cbn; reflexivity|].
  cbn. unfold chr_matches. rewrite !Ascii.eqb_refl.
  repeat match goal with H : is_digit _ = true |- _ => rewrite H; clear H end.
  reflexivity.
Qed.

(** [url_date] gives the leftmost date of the URL, with hyphens. *)
Lemma url_date_spec (url : string) :
  match url_date url with
  | Some r =>
      exists pre y m d post,
        date_at (chars url) pre y m d post
        /\ leftmost_date (chars url) pre
        /\ r = hyphenated y m d
  | None => forall pre y m d post, ~ date_at (chars url) pre y m d post
  end.
Proof.
  unfold url_date, re_search. fold (chars url).
  pose proof (search_from_fixed false url_date_pattern _ url_date_pattern_classes
                (chars url) []) as S.
  destruct (search_from false url_date_pattern [] (chars url)) as [[[b' mt] rest]|].
  - destruct S as (pre & E & _ & SM & LM).
    destruct (date_classes_match _ _ _ SM) as (y & m & d & -> & Ly & Lm & Ld & D & R).
    exists pre, y, m, d, rest. split_ands; auto.
    + rewrite E, <- !app_assoc. cbn. now rewrite <- !app_assoc.
    + intros pre' y' m' d' post' DA. apply date_at_match in DA as [E' SM'].
      destruct (Nat.le_gt_cases (length pre) (length pre')) as [|L]; [assumption|].
      rewrite (LM pre' _ E' L) in SM'. discriminate.
  - intros pre y m d post DA. apply date_at_match in DA as [E' SM'].
    rewrite (S pre _ E') in SM'. discriminate.
Qed.

Lemma extract_date_without_meta (sp : soup) (url : string) :
  no_meta_content sp ->
  extract_date sp url = match url_date url with Some d => d | None => unknown_date end.
Proof.
  unfold no_meta_content, extract_date, meta_date.
  destruct (meta_published_time sp) as [[[|c content]|]|]; try reflexivity;
    [discriminate|].
  destruct (meta_name_date sp) as [[[|c content]|]|]; try reflexivity; discriminate.
Qed.

(** C7 (as amended).  The metadata element [article:published_time] is
    looked for first, and the element [date] only when there is no
    [article:published_time] element at all.  When the element found has a
    content that is not empty, the result is the first ten characters of
    that content (for a content that satisfies [isascii]).  Otherwise,
    when the URL (which satisfies [isascii]) contains four digits, a
    slash, two digits, a slash and two digits, the result is the leftmost
    such date with hyphens in place of the slashes; a URL with
    [2025/03/14] gives [2025-03-14].  Otherwise the result is the string
    [unknown_date], the Russian word for unknown.  The function is total:
    it returns a string on every input. *)
Theorem extract_date_priority (sp : soup) (url : string) :
  (forall c, meta_published_time sp = Some (Some c) -> c <> EmptyString ->
             isascii c = true ->
             extract_date sp url = substring 0 10 c)
  /\ (forall c, meta_published_time sp = None -> meta_name_date sp = Some (Some c) ->
                c <> EmptyString -> isascii c = true ->
                extract_date sp url = substring 0 10 c)
  /\ (no_meta_content sp -> isascii url = true ->
      ((exists pre y m d post, date_at (chars url) pre y m d post) ->
       exists pre y m d post,
         date_at (chars url) pre y m d post
         /\ leftmost_date (chars url) pre
         /\ extract_date sp url = hyphenated y m d)
      /\ ((forall pre y m d post, ~ date_at (chars url) pre y m d post) ->
          extract_date sp url = unknown_date))
  /\ (no_meta_content sp -> extract_date sp sun_article = "2025-03-14")
  /\ unknown_date = "Неизвестно".
Proof.
  split; [|split; [|split; [|split; [|reflexivity]]]].
  - intros c M Ne _. unfold extract_date, meta_date. rewrite M.
    destruct c; [congruence|reflexivity].
  - intros c M1 M2 Ne _. unfold extract_date, meta_date. rewrite M1, M2.
    destruct c; [congruence|reflexivity].
  - intros NoMeta _. rewrite (extract_date_without_meta sp url NoMeta).
    pose proof (url_date_spec url) as S.
    destruct (url_date url) as [r|]; split.
    + intros _. destruct S as (pre0 & y0 & m0 & d0 & post0 & DA0 & LM0 & ->).
      exists pre0, y0, m0, d0, post0. auto.
    + intros No. destruct S as (pre0 & y0 & m0 & d0 & post0 & DA0 & _).
      now destruct (No _ _ _ _ _ DA0).
    + intros [pre [y [m [d [post DA]]]]]. now destruct (S pre y m d post).
    + reflexivity.
  - intros NoMeta. rewrite (extract_date_without_meta sp sun_article NoMeta).
    vm_compute. reflexivity.
Qed.

Lemma extract_date_priority_witness :
  meta_published_time page_with_two_dates = Some (Some "2025-01-02T10:00:00Z")
  /\ "2025-01-02T10:00:00Z" <> EmptyString
  /\ isascii "2025-01-02T10:00:00Z" = true
  /\ extract_date page_with_two_dates sun_article = "2025-01-02"
  /\ no_meta_content page_with_empty_meta
  /\ extract_date page_with_empty_meta sun_article = "2025-03-14".
Proof.
  assert (meta_published_time page_with_two_dates = Some (Some "2025-01-02T10:00:00Z"))
    as M by reflexivity.
  assert ("2025-01-02T10:00:00Z" <> EmptyString) as Ne by discriminate.
  assert (isascii "2025-01-02T10:00:00Z" = true) as A by reflexivity.
  assert (no_meta_content page_with_empty_meta) as N by exact I.
  split; [exact M|]. split; [exact Ne|]. split; [exact A|].
  split; [|split; [exact N|]].
  - exact (proj1 (extract_date_priority page_with_two_dates sun_article) _ M Ne A).
  - exact (proj1 (proj2 (proj2 (proj2 (extract_date_priority page_with_empty_meta
                                         sun_article)))) N).
Defined.

(** C7, as stated, fails: for a page without metadata and a URL without
    a date the result is the Russian word, not the string of the claim.
    And a time stamp in the second metadata element is passed over when
    the first element is there without content. *)
Lemma unknown_date_is_not_unknown :
  extract_date sample_page sun_sitemap = "Неизвестно"
  /\ extract_date sample_page sun_sitemap <> "unknown"
  /\ extract_date page_with_empty_meta sun_sitemap <> "2025-01-02".
Proof. split_ands; vm_compute; [reflexivity|discriminate|discriminate]. Qed.

(** ** The pattern of [count_phrase_occurrences] *)

Lemma trail_class_not_word (c : ascii) : trail_class c = true -> is_word c = false.
Proof.
  destruct c as [[] [] [] [] [] [] [] []]; vm_compute; intros H;
    first [reflexivity | discriminate H].
Qed.

Lemma is_word_lower_char (c : ascii) : is_word (lower_char c) = is_word c.
Proof. destruct c as [[] [] [] [] [] [] [] []]; vm_compute; reflexivity. Qed.

Lemma strip_prefix_spec (p : list ascii) :
  forall s rest, strip_prefix p s = Some rest <-> s = p ++ rest.
Proof.
  induction p as [|x p IH]; intros s rest; cbn.
  - split; [now intros [= ->]|now intros ->].
  - destruct s as [|c s]; [split; discriminate|].
    destruct (Ascii.eqb_spec x c) as [->|Ne].
    + rewrite IH. split; [now intros ->|now intros [= ->]].
    + split; [discriminate|]. intros [= -> _]. now destruct Ne.
Qed.

Lemma ends_escape (p : list ascii) :
  forall b s,
    ends false (escape p) (b, s)
    = match strip_prefix p s with
      | Some rest => [(rev p ++ b, rest)]
      | None => []
      end.
Proof.
  induction p as [|x p IH]; intros b s; [reflexivity|].
  cbn [escape fold_right ends fst snd strip_prefix].
  destruct s as [|c s]; [reflexivity|]. unfold chr_matches.
  destruct (Ascii.eqb_spec x c) as [->|Ne]; [|reflexivity].
  cbn [flat_map]. fold (escape p). rewrite IH, app_nil_r.
  destruct (strip_prefix p s); [|reflexivity].
  cbn [rev]. now rewrite <- app_assoc.
Qed.

Lemma flat_map_filter {A : Type} (f : A -> bool) (l : list A) :
  flat_map (fun z => if f z then [z] else []) l = List.filter f l.
Proof.
  induction l as [|a l IH]; [reflexivity|]. cbn. rewrite IH. now destruct (f a).
Qed.

Lemma star_ends_spec (p : ascii -> bool) :
  forall s b,
  exists front,
    star_ends p b s = front ++ [(b, s)] /\ Forall (star_end p b s) front.
Proof.
  induction s as [|c s IH]; intros b; cbn.
  - exists []. split; [reflexivity|constructor].
  - destruct (p c) eqn:Pc; [|exists []; split; [reflexivity|constructor]].
    destruct (IH (c :: b)) as (front & -> & F).
    exists (front ++ [(c :: b, s)]). split; [reflexivity|].
    apply List.Forall_app. split.
    + eapply List.Forall_impl; [|exact F]. intros z (k & Hk & A & ->).
      exists (S k). cbn. rewrite Pc, A, <- app_assoc. split_ands; auto; lia.
    + constructor; [|constructor]. exists 1. cbn. rewrite Pc. split_ands; auto; lia.
Qed.

(** The ends of the pattern of [count_phrase_occurrences]. *)
Lemma ends_count_pattern (phrase : string) (b s : list ascii) :
  ends false (count_pattern phrase) (b, s)
  = if at_word_boundary (b, s) then
      match strip_prefix (chars phrase) s with
      | Some rest =>
          List.filter at_word_boundary (star_ends trail_class (rev (chars phrase) ++ b) rest)
      | None => []
      end
    else [].
Proof.
  unfold count_pattern. fold (chars phrase).
  cbn [ends flat_map]. destruct (at_word_boundary (b, s)); [|reflexivity].
  cbn [flat_map]. rewrite ends_escape, app_nil_r.
  destruct (strip_prefix (chars phrase) s) as [rest|]; [|reflexivity].
  cbn [flat_map ends fst snd]. rewrite app_nil_r. apply flat_map_filter.
Qed.



Lemma forallb_trail_not_word (l : list ascii) :
  forallb trail_class l = true -> forallb (fun c => negb (is_word c)) l = true.
Proof.
  induction l as [|c l IH]; cbn; [auto|]. intros H. apply andb_prop in H as [Hc H].
  now rewrite (trail_class_not_word c Hc), IH.
Qed.






Lemma matches_here_positive (n : nat) (l : list nat) :
  0 < n -> matches_here (n :: l) = [n].
Proof. destruct n; [lia|reflexivity]. Qed.



Lemma chars_lower (s : string) : chars (lower s) = lower_chars (chars s).
Proof. unfold chars, lower. apply list_ascii_of_string_of_list_ascii. Qed.

Lemma head_is_word_lower (l : list ascii) :
  head_is_word (lower_chars l) = head_is_word l.
Proof. destruct l as [|c l]; [reflexivity|]. cbn. apply is_word_lower_char. Qed.






(** ** The matcher of the page fetcher *)

Lemma ends_escape_ci (p : list ascii) :
  forall b s,
    ends true (escape p) (b, s)
    = match strip_prefix_ci p s with
      | Some rest => [(rev (firstn (length p) s) ++ b, rest)]
      | None => []
      end.
Proof.
  induction p as [|x p IH]; intros b s; [reflexivity|].
  cbn [escape fold_right ends fst snd strip_prefix_ci].
  destruct s as [|c s]; [reflexivity|]. unfold chr_matches.
  destruct (Ascii.eqb (lower_char x) (lower_char c)); [|reflexivity].
  cbn [flat_map]. fold (escape p). rewrite IH, app_nil_r.
  destruct (strip_prefix_ci p s); [|reflexivity].
  cbn [length firstn rev]. now rewrite <- app_assoc.
Qed.

Lemma strip_prefix_ci_length (p : list ascii) :
  forall s rest, strip_prefix_ci p s = Some rest -> length s = length p + length rest.
Proof.
  induction p as [|x p IH]; intros s rest H; cbn in H.
  - now injection H as ->.
  - destruct s as [|c s]; [discriminate|].
    destruct (Ascii.eqb (lower_char x) (lower_char c)); [|discriminate].
    cbn. now rewrite (IH _ _ H).
Qed.

(** The ends of the pattern that the page fetcher compiles. *)
Lemma ends_phrase_pattern (phrase : string) (b s : list ascii) :
  ends true (phrase_pattern phrase) (b, s)
  = match strip_prefix_ci (chars (lower phrase)) s with
    | Some rest =>
        if page_match_at (chars (lower phrase)) (b, s)
        then [(rev (firstn (length (chars (lower phrase))) s) ++ b, rest)]
        else []
    | None => []
    end.
Proof.
  unfold phrase_pattern, page_match_at, word_before. fold (chars (lower phrase)).
  set (p := chars (lower phrase)).
  assert (ends true (Cat (escape p) (NotAhead (Alt (Cls is_word) Dollar))) (b, s)
          = match strip_prefix_ci p s with
            | Some rest =>
                if followed_by_text rest
                then [(rev (firstn (length p) s) ++ b, rest)] else []
            | None => []
            end) as E.
  { cbn [ends]. rewrite ends_escape_ci.
    destruct (strip_prefix_ci p s) as [rest|]; [|reflexivity].
    cbn [flat_map ends fst snd]. rewrite app_nil_r. unfold at_dollar. cbn [snd].
    destruct rest as [|c [|c2 r]]; cbn [followed_by_text app];
      try destruct (is_word c); try destruct (Ascii.eqb c newline); reflexivity. }
  set (R := Cat (escape p) (NotAhead (Alt (Cls is_word) Dollar))) in *.
  change (ends true (Cat (NotBehind is_word) R) (b, s))
    with (flat_map (ends true R) (ends true (NotBehind is_word) (b, s))).
  cbn [fst snd]. destruct b as [|x b]; cbn [ends fst head_is_word negb andb].
  - cbn [flat_map]. rewrite app_nil_r, E. now destruct (strip_prefix_ci p s).
  - destruct (is_word x); cbn [negb andb flat_map].
    + now destruct (strip_prefix_ci p s).
    + rewrite app_nil_r, E. now destruct (strip_prefix_ci p s).
Qed.

Lemma page_here (phrase : string) (b s : list ascii) :
  matches_here (map (consumed s) (ends true (phrase_pattern phrase) (b, s)))
  = if page_match_at (chars (lower phrase)) (b, s)
    then [length (chars (lower phrase))] else [].
Proof.
  rewrite ends_phrase_pattern.
  destruct (strip_prefix_ci (chars (lower phrase)) s) as [rest|] eqn:SP.
  - destruct (page_match_at (chars (lower phrase)) (b, s)); [|reflexivity].
    unfold consumed. cbn [map snd]. rewrite (strip_prefix_ci_length _ _ _ SP).
    replace (length (chars (lower phrase)) + length rest - length rest)
      with (length (chars (lower phrase))) by lia.
    now destruct (length (chars (lower phrase))).
  - unfold page_match_at. cbn [snd]. rewrite SP. now rewrite andb_false_r.
Qed.

Lemma findall_page_scan (phrase : string) :
  forall s skip b,
    length (findall_from true (phrase_pattern phrase) skip b s)
    = page_scan (chars (lower phrase)) skip b s.
Proof.
  induction s as [|c s IH]; intros skip b.
  - destruct skip as [|n]; [|reflexivity]. cbn [findall_from page_scan].
    rewrite page_here. now destruct (page_match_at (chars (lower phrase)) (b, [])).
  - destruct skip as [|n]; [|cbn [findall_from page_scan]; apply IH].
    cbn [findall_from page_scan]. rewrite page_here.
    destruct (page_match_at (chars (lower phrase)) (b, c :: s)).
    + cbn [map List.last app length]. now rewrite IH.
    + cbn [map List.last app length pred]. now rewrite IH.
Qed.



Lemma length_chars (s : string) : length (chars s) = String.length s.
Proof. unfold chars. induction s as [|c s IH]; cbn; congruence. Qed.

Lemma length_chars_lower (s : string) : length (chars (lower s)) = String.length s.
Proof.
  rewrite chars_lower. unfold lower_chars. now rewrite length_map, length_chars.
Qed.




(** ** The empty phrase and the empty text *)

(** With the empty phrase the pattern matches at every word boundary:
    the empty string, or a run of trailing characters that ends at
    another word boundary. *)
Lemma empty_phrase_here (b s : list ascii) :
  if at_word_boundary (b, s) then
    exists k,
      matches_here (map (consumed s) (ends false (count_pattern EmptyString) (b, s))) = [k]
      /\ k <= length s
      /\ forallb trail_class (firstn k s) = true
  else matches_here (map (consumed s) (ends false (count_pattern EmptyString) (b, s))) = [].
Proof.
  rewrite ends_count_pattern. cbn [chars list_ascii_of_string strip_prefix rev app].
  destruct (at_word_boundary (b, s)) eqn:B; [|reflexivity].
  destruct (star_ends_spec trail_class s b) as (front & -> & F).
  rewrite List.filter_app. cbn [List.filter]. rewrite B.
  destruct (@List.filter (list ascii * list ascii) at_word_boundary front)
    as [|z more] eqn:FF.
  - exists 0. unfold consumed. cbn [app map snd]. rewrite Nat.sub_diag.
    split_ands; auto; lia.
  - assert (In z front) as Hz.
    { pose proof (in_eq z more) as Hin. rewrite <- FF in Hin.
      now apply filter_In in Hin as [Hin _]. }
    rewrite List.Forall_forall in F. destruct (F z Hz) as (k & Hk & A & ->).
    exists k. cbn [app map]. unfold consumed at 1. cbn [snd]. rewrite length_skipn.
    replace (length s - (length s - k)) with k by lia.
    rewrite matches_here_positive by lia. split_ands; auto; lia.
Qed.

Lemma findall_count_boundaries :
  forall s skip b,
    skip = 0
    \/ (head_is_word b = false
        /\ skip <= length s
        /\ forallb (fun c => negb (is_word c)) (firstn skip s) = true) ->
    length (findall_from false (count_pattern EmptyString) skip b s) = count_boundaries b s.
Proof.
  induction s as [|c s IH]; intros skip b H.
  - destruct skip as [|n]; [|destruct H as [H|(_ & H & _)]; [discriminate|cbn in H; lia]].
    cbn [findall_from count_boundaries].
    pose proof (empty_phrase_here b []) as E.
    destruct (at_word_boundary (b, [])).
    + destruct E as (k & -> & _). reflexivity.
    + rewrite E. reflexivity.
  - destruct skip as [|n]; cbn [findall_from count_boundaries].
    + pose proof (empty_phrase_here b (c :: s)) as E.
      destruct (at_word_boundary (b, c :: s)).
      * destruct E as (k & -> & Lk & T). cbn [map List.last app length Nat.add].
        f_equal. apply IH. destruct k as [|k]; [now left|right].
        cbn in T, Lk. apply andb_prop in T as [Tc T]. cbn [pred head_is_word].
        split_ands; [now apply trail_class_not_word|lia|now apply forallb_trail_not_word].
      * rewrite E. cbn. apply IH. now left.
    + destruct H as [H|(Hb & L & N)]; [discriminate|].
      cbn in N. apply andb_prop in N as [Nc N]. apply negb_true_iff in Nc.
      unfold at_word_boundary, word_before, word_after. cbn [fst snd head_is_word].
      rewrite Hb, Nc. cbn [xorb Nat.add]. apply IH. right.
      cbn in L. split_ands; [exact Nc|lia|exact N].
Qed.

Lemma count_boundaries_no_word (s : list ascii) :
  forall b,
    head_is_word b = false ->
    forallb (fun c => negb (is_word c)) s = true ->
    count_boundaries b s = 0.
Proof.
  induction s as [|c s IH]; intros b Hb N; cbn [count_boundaries];
    unfold at_word_boundary, word_before, word_after; cbn [fst snd head_is_word];
    rewrite Hb.
  - reflexivity.
  - cbn in N. apply andb_prop in N as [Nc N]. apply negb_true_iff in Nc.
    rewrite Nc. cbn. now apply IH.
Qed.

(** C10 (as amended).  The function is total.  For texts and phrases
    that satisfy [isascii]: on the empty text the count is 0 for every
    phrase; with the empty phrase the count is the number of word
    boundaries of the text, and it is 0 when the text has no word
    character. *)
Theorem count_phrase_occurrences_empty (text phrase : string) :
  isascii text = true ->
  isascii phrase = true ->
  count_phrase_occurrences EmptyString phrase = 0
  /\ count_phrase_occurrences text EmptyString = word_boundaries text
  /\ (forallb (fun c => negb (is_word c)) (chars text) = true ->
      count_phrase_occurrences text EmptyString = 0).
Proof.
  intros _ _.
  assert (count_phrase_occurrences text EmptyString = word_boundaries text) as E.
  { unfold count_phrase_occurrences, re_findall, word_boundaries.
    apply (findall_count_boundaries (chars (lower text)) 0 []). now left. }
  split_ands.
  - unfold count_phrase_occurrences, re_findall.
    cbn [lower list_ascii_of_string lower_chars map string_of_list_ascii findall_from].
    rewrite ends_count_pattern. reflexivity.
  - exact E.
  - intros N. rewrite E. unfold word_boundaries.
    apply count_boundaries_no_word; [reflexivity|].
    rewrite chars_lower. clear E. unfold lower_chars.
    induction (chars text) as [|c l IH]; [reflexivity|].
    cbn in *. apply andb_prop in N as [Nc N].
    now rewrite is_word_lower_char, Nc, IH.
Qed.

Lemma count_phrase_occurrences_empty_witness :
  isascii "?! ..." = true
  /\ isascii "dishy rishi" = true
  /\ forallb (fun c => negb (is_word c)) (chars "?! ...") = true
  /\ count_phrase_occurrences EmptyString "dishy rishi" = 0
  /\ count_phrase_occurrences "?! ..." EmptyString = 0.
Proof.
  assert (isascii "?! ..." = true) as T by reflexivity.
  assert (isascii "dishy rishi" = true) as P by reflexivity.
  assert (forallb (fun c => negb (is_word c)) (chars "?! ...") = true) as N
      by reflexivity.
  split; [exact T|]. split; [exact P|]. split; [exact N|].
  pose proof (count_phrase_occurrences_empty "?! ..." "dishy rishi" T P) as (A & _ & B).
  split; [exact A|exact (B N)].
Defined.

(** C10, as stated, fails: with the empty phrase the count of a text
    with a word in it is not 0. *)
Lemma empty_phrase_counts_word_boundaries :
  count_phrase_occurrences "a" EmptyString = 2
  /\ count_phrase_occurrences "dishy rishi" EmptyString = 4.
Proof. split; vm_compute; reflexivity. Qed.

(** * Further properties *)

(** ** The worker and the end-of-stream item *)

Lemma save_loop_finished_iff (items : list (option article)) :
  forall buffer db,
    (exists db', save_loop items buffer db = Finished db') <-> In None items.
Proof.
  induction items as [|[data|] rest IH]; intros buffer db; cbn [save_loop].
  - split; [intros [db' H]; discriminate H|intros []].
  - destruct (10 <=? length (buffer ++ [data])); rewrite IH; cbn;
      split; auto; intros [H|H]; [discriminate H|exact H|discriminate H|exact H].
  - split; [now left|]. intros _. destruct buffer; eauto.
Qed.

Lemma save_loop_ignores_rest (front : list article) (back : list (option article)) :
  forall buffer db,
    save_loop (map Some front ++ None :: back) buffer db
    = save_loop (map Some front ++ [None]) buffer db.
Proof.
  induction front as [|a front IH]; intros buffer db; cbn [map app save_loop].
  - reflexivity.
  - destruct (10 <=? length (buffer ++ [a])); apply IH.
Qed.

(** X1.  The worker returns exactly when the end-of-stream item [None]
    is among the items the queue delivers; without it the worker waits in
    [queue.get()].  What the queue delivers after the first [None] is
    never looked at. *)
Theorem save_to_db_returns_on_sentinel (db : database) (items : list (option article)) :
  ((exists db', save_to_db db items = Finished db') <-> In None items)
  /\ (forall front back,
        items = map Some front ++ None :: back ->
        save_to_db db items = save_to_db db (map Some front ++ [None])).
Proof.
  split; [apply save_loop_finished_iff|].
  intros front back ->. apply save_loop_ignores_rest.
Qed.

Lemma save_to_db_returns_on_sentinel_witness :
  [Some sample_article; None; Some sample_article]
  = map Some [sample_article] ++ None :: [Some sample_article]
  /\ save_to_db empty_database [Some sample_article; None; Some sample_article]
     = save_to_db empty_database (map Some [sample_article] ++ [None]).
Proof.
  assert ([Some sample_article; None; Some sample_article]
          = map Some [sample_article] ++ None :: [Some sample_article]) as E
      by reflexivity.
  split; [exact E|].
  exact (proj2 (save_to_db_returns_on_sentinel empty_database
                  [Some sample_article; None; Some sample_article])
           [sample_article] [Some sample_article] E).
Defined.

(** ** Batches *)

Lemma map_row_url (rows : list row) :
  map row_url rows = map a_url (map row_article rows).
Proof. now rewrite map_map. Qed.

Lemma insert_or_ignore_fresh (db : database) (a : article) :
  ~ In (a_url a) (map row_url (stored db ++ pending db)) ->
  insert_or_ignore db a
  = {| stored := stored db;
       pending := pending db ++ [{| row_id := S (last_id db); row_article := a |}];
       last_id := S (last_id db) |}.
Proof.
  intros Fresh. unfold insert_or_ignore.
  destruct (has_url (a_url a) (stored db ++ pending db)) eqn:H; [|reflexivity].
  apply has_url_In in H. now destruct Fresh.
Qed.

(** Records with new, distinct URLs are all inserted, in their order,
    with the next ids. *)
Lemma executemany_fresh (buffer : list article) :
  forall db,
    List.NoDup (map row_url (stored db ++ pending db) ++ map a_url buffer) ->
    stored (executemany buffer db) = stored db
    /\ map row_article (pending (executemany buffer db))
       = map row_article (pending db) ++ buffer
    /\ last_id (executemany buffer db) = last_id db + length buffer.
Proof.
  unfold executemany.
  induction buffer as [|a buffer IH]; intros db ND; cbn [fold_left].
  - cbn. rewrite app_nil_r. auto.
  - cbn [map] in ND.
    assert (~ In (a_url a) (map row_url (stored db ++ pending db))) as Fresh.
    { pose proof (NoDup_remove_2 _ _ _ ND) as N. intros H. apply N, in_or_app. now left. }
    rewrite (insert_or_ignore_fresh db a Fresh).
    match goal with
    | |- context [fold_left insert_or_ignore buffer ?d] =>
        destruct (IH d) as (S1 & P1 & L1)
    end.
    + cbn [stored pending]. rewrite app_assoc, map_app. cbn [map].
      unfold row_url at 2. cbn [row_article]. rewrite <- app_assoc. exact ND.
    + rewrite S1, P1, L1. cbn [stored pending last_id length].
      rewrite map_app, <- app_assoc. cbn. split_ands; auto; lia.
Qed.

Lemma flush_fresh (buffer : list article) (db : database) :
  pending db = [] ->
  List.NoDup (map row_url (stored db) ++ map a_url buffer) ->
  let db' := commit (executemany buffer db) in
  map row_article (stored db') = map row_article (stored db) ++ buffer
  /\ pending db' = []
  /\ last_id db' = last_id db + length buffer.
Proof.
  intros P ND. destruct (executemany_fresh buffer db) as (S1 & P1 & L1).
  { now rewrite P, app_nil_r. }
  cbn. rewrite S1, map_app, P1, P. auto.
Qed.

Lemma save_loop_batches (recs : list article) :
  forall buffer db,
    pending db = [] ->
    length buffer < 10 ->
    List.NoDup (map row_url (stored db) ++ map a_url (buffer ++ recs)) ->
    exists buffer' db' k,
      save_loop (map Some recs) buffer db = Waiting buffer' db'
      /\ length buffer' < 10
      /\ map row_article (stored db') ++ buffer'
         = map row_article (stored db) ++ buffer ++ recs
      /\ pending db' = []
      /\ length (stored db') = length (stored db) + 10 * k
      /\ last_id db' = last_id db + 10 * k.
Proof.
  induction recs as [|a recs IH]; intros buffer db P L ND; cbn [map save_loop].
  - exists buffer, db, 0. rewrite app_nil_r. split_ands; auto; lia.
  - assert (List.NoDup ((map row_url (stored db) ++ map a_url (buffer ++ [a]))
                          ++ map a_url recs)) as ND2.
    { rewrite <- (app_assoc (map row_url (stored db))), <- map_app,
        <- (app_assoc buffer). exact ND. }
    destruct (10 <=? length (buffer ++ [a])) eqn:Full.
    + apply Nat.leb_le in Full.
      assert (length (buffer ++ [a]) = 10) as Ten
          by (rewrite length_app in *; cbn in *; lia).
      destruct (flush_fresh (buffer ++ [a]) db P) as (S1 & P1 & L1);
        [now apply NoDup_app_remove_r in ND2|].
      destruct (IH [] (commit (executemany (buffer ++ [a]) db)) P1 ltac:(cbn; lia))
        as (buffer' & db' & k & E & Lb & M & P' & Ls & Li).
      { cbn [app]. rewrite map_row_url, S1, map_app, <- map_row_url. exact ND2. }
      exists buffer', db', (S k). rewrite E. split_ands; auto.
      * rewrite M, S1, <- !app_assoc. reflexivity.
      * rewrite Ls. rewrite <- (length_map row_article (stored (commit _))), S1.
        rewrite length_app, length_map, Ten. lia.
      * rewrite Li, L1, Ten. lia.
    + apply Nat.leb_gt in Full.
      destruct (IH (buffer ++ [a]) db P Full) as (buffer' & db' & k & E & H).
      { rewrite <- app_assoc. exact ND. }
      exists buffer', db', k. rewrite E. rewrite <- app_assoc in H. exact (conj eq_refl H).
Qed.

(** The worker goes on from where it waits when more items arrive. *)
Lemma save_loop_app (items more : list (option article)) :
  forall buffer db buffer' db',
    save_loop items buffer db = Waiting buffer' db' ->
    save_loop (items ++ more) buffer db = save_loop more buffer' db'.
Proof.
  induction items as [|[a|] items IH]; intros buffer db buffer' db' H;
    cbn [app save_loop] in *.
  - now injection H as <- <-.
  - destruct (10 <=? length (buffer ++ [a])); now apply IH.
  - destruct buffer; discriminate H.
Qed.

(** X2.  Records with distinct URLs that the table does not hold yet are
    written in batches of ten, in the order in which they were
    submitted.  While the worker waits, the records of full batches are
    committed and the last [n mod 10] records are in its buffer; once
    the end-of-stream item arrives all of them are committed, one row
    each, with the next ids. *)
Theorem save_to_db_batches_of_ten (db : database) (recs : list article)
    (back : list (option article)) :
  pending db = [] ->
  List.NoDup (map row_url (stored db) ++ map a_url recs) ->
  (exists buffer db',
      save_to_db db (map Some recs) = Waiting buffer db'
      /\ map row_article (stored db') ++ buffer = map row_article (stored db) ++ recs
      /\ length buffer = length recs mod 10
      /\ pending db' = [])
  /\ (exists db',
        save_to_db db (map Some recs ++ None :: back) = Finished db'
        /\ map row_article (stored db') = map row_article (stored db) ++ recs
        /\ pending db' = []
        /\ last_id db' = last_id db + length recs).
Proof.
  intros P ND. unfold save_to_db.
  destruct (save_loop_batches recs [] db P ltac:(cbn; lia) ND)
    as (buffer & db' & k & E & Lb & M & P' & Ls & Li).
  cbn [app] in M.
  assert (length recs = 10 * k + length buffer) as Len.
  { apply (f_equal (@length article)) in M. rewrite !length_app, !length_map in M. lia. }
  split.
  - exists buffer, db'. split_ands; auto.
    apply (Nat.mod_unique _ 10 k); [exact Lb|exact Len].
  - rewrite (save_loop_app _ (None :: back) [] db buffer db' E). cbn [save_loop].
    destruct buffer as [|b buffer].
    + exists db'. rewrite app_nil_r in M. cbn in Len. split_ands; auto. lia.
    + destruct (flush_fresh (b :: buffer) db' P') as (S1 & P1 & L1).
      { rewrite map_row_url, <- map_app, M, map_app, <- map_row_url. exact ND. }
      exists (commit (executemany (b :: buffer) db')).
      split_ands; auto.
      * now rewrite S1, M.
      * rewrite L1, Li, Len. lia.
Qed.

Lemma save_to_db_batches_of_ten_witness :
  pending table_with_one_row = []
  /\ List.NoDup (map row_url (stored table_with_one_row) ++ map a_url twelve_articles)
  /\ (exists buffer db',
        save_to_db table_with_one_row (map Some twelve_articles) = Waiting buffer db'
        /\ length buffer = 2
        /\ map row_article (stored db') ++ buffer = sample_article :: twelve_articles)
  /\ (exists db',
        save_to_db table_with_one_row (map Some twelve_articles ++ [None]) = Finished db'
        /\ map row_article (stored db') = sample_article :: twelve_articles
        /\ last_id db' = 13).
Proof.
  assert (pending table_with_one_row = []) as P by reflexivity.
  assert (List.NoDup (map row_url (stored table_with_one_row)
                      ++ map a_url twelve_articles)) as ND.
  { cbn. repeat (constructor; [cbn; intuition discriminate|]). constructor. }
  split; [exact P|]. split; [exact ND|].
  destruct (save_to_db_batches_of_ten table_with_one_row twelve_articles [] P ND)
    as [(buffer & db1 & E1 & M1 & L1 & _) (db2 & E2 & M2 & _ & I2)].
  split.
  - exists buffer, db1. split; [exact E1|]. split; [exact L1|exact M1].
  - exists db2. split; [exact E2|]. split; [exact M2|exact I2].
Defined.

(** ** What a page fetch leaves behind *)

Lemma page_loop_success_detail (net : network) (url phrase lms : string) (a : nat)
    (rest : list nat) (w : world) (xml : option element) (sp : soup) :
  net (requests w) url = Response 200 (Body xml (Some sp)) ->
  exists w',
    page_loop net url phrase lms (a :: rest) w
    = (Ret (if 0 <? page_occurrences (article_text_of sp) phrase
            then Some url else None), w')
    /\ sitemap_cache w' = sitemap_cache w
    /\ requests w' = S (requests w)
    /\ queue w'
       = if 0 <? page_occurrences (article_text_of sp) phrase
         then queue w
              ++ [Some {| a_url := url;
                          a_title := match soup_title sp with
                                     | Some t => t
                                     | None => Some no_title
                                     end;
                          a_phrase := phrase;
                          a_count := page_occurrences (article_text_of sp) phrase;
                          a_date := extract_date sp url |}]
         else queue w.
Proof.
  intros H. cbn [page_loop]. unfold page_attempt, session_get. rewrite H.
  cbn -[page_occurrences extract_date re_search String.concat Nat.ltb].
  fold (article_text_of sp).
  destruct (0 <? page_occurrences (article_text_of sp) phrase);
    eexists; (split; [reflexivity|]); unfold log_month;
    destruct (re_search false month_pattern (extract_date sp url)) as [[[? m] ?]|];
    try destruct (String.eqb lms (string_of_list_ascii m)); cbn; auto.
Qed.

Lemma page_loop_result (net : network) (url phrase lms : string) (attempts : list nat) :
  forall w,
    sitemap_cache (snd (page_loop net url phrase lms attempts w)) = sitemap_cache w
    /\ ((fst (page_loop net url phrase lms attempts w) = Ret None
         /\ queue (snd (page_loop net url phrase lms attempts w)) = queue w)
        \/ (fst (page_loop net url phrase lms attempts w) = Ret (Some url)
            /\ exists i xml sp,
                i < length attempts
                /\ net (i + requests w) url = Response 200 (Body xml (Some sp))
                /\ (forall j, j < i -> page_success (net (j + requests w) url) = false)
                /\ 1 <= page_occurrences (article_text_of sp) phrase
                /\ queue (snd (page_loop net url phrase lms attempts w))
                   = queue w
                     ++ [Some {| a_url := url;
                                 a_title := match soup_title sp with
                                            | Some t => t
                                            | None => Some no_title
                                            end;
                                 a_phrase := phrase;
                                 a_count := page_occurrences (article_text_of sp) phrase;
                                 a_date := extract_date sp url |}])).
Proof.
  induction attempts as [|a rest IH]; intros w.
  - cbn. auto.
  - destruct (page_success (net (requests w) url)) eqn:S0.
    + destruct (page_success_inv _ S0) as (xml & sp & E).
      destruct (page_loop_success_detail net url phrase lms a rest w xml sp E)
        as (w' & -> & C & R & Q).
      cbn [fst snd]. split; [exact C|].
      destruct (0 <? page_occurrences (article_text_of sp) phrase) eqn:Pos.
      * right. split; [reflexivity|]. exists 0, xml, sp. apply Nat.ltb_lt in Pos.
        split_ands; auto; try (cbn; lia); intros j Hj; lia.
      * left. auto.
    + rewrite (page_loop_failed net url phrase lms a rest w S0).
      set (w1 := failed_attempt url a (net (requests w) url) w).
      destruct (IH w1) as [C H]. split; [exact C|].
      destruct H as [[R Q]|(R & i & xml & sp & Hi & E & F & Pos & Q)].
      * left. auto.
      * right. split; [exact R|]. exists (S i), xml, sp.
        assert (forall k, net (k + requests w1) url = net (S k + requests w) url) as SH.
        { intros k. cbn. now rewrite Nat.add_succ_r. }
        split_ands; auto.
        -- cbn. lia.
        -- now rewrite <- SH.
        -- intros [|j] Hj; [exact S0|]. rewrite <- SH. apply F. lia.
Qed.

(** X4.  A page fetch never touches the sitemap cache.  It either
    returns [None] and leaves the queue as it was, or returns the URL of
    the page and has put exactly one record on the queue: the record of
    the first attempt that got status 200 and a page that parses, with
    that URL, the phrase, the date extracted from that page and a count
    that is at least 1. *)
Theorem extract_text_from_url_result (net : network) (url phrase lms : string)
    (w : world) :
  sitemap_cache (snd (extract_text_from_url net url phrase lms w)) = sitemap_cache w
  /\ ((fst (extract_text_from_url net url phrase lms w) = Ret None
       /\ queue (snd (extract_text_from_url net url phrase lms w)) = queue w)
      \/ (fst (extract_text_from_url net url phrase lms w) = Ret (Some url)
          /\ exists a i xml sp,
              i < 3
              /\ net (i + requests w) url = Response 200 (Body xml (Some sp))
              /\ (forall j, j < i -> page_success (net (j + requests w) url) = false)
              /\ queue (snd (extract_text_from_url net url phrase lms w))
                 = queue w ++ [Some a]
              /\ a_url a = url
              /\ a_phrase a = phrase
              /\ a_date a = extract_date sp url
              /\ a_count a = page_occurrences (article_text_of sp) phrase
              /\ 1 <= a_count a)).
Proof.
  rewrite extract_text_from_url_unfold. cbn [fst snd].
  destruct (page_loop_result net url phrase lms (seq 0 3) (emit EvAcquire w)) as [C H].
  split; [exact C|].
  destruct H as [[R Q]|(R & i & xml & sp & Hi & E & F & Pos & Q)]; [left; auto|right].
  split; [exact R|]. eexists _, i, xml, sp. cbn [queue emit].
  split_ands; [exact Hi|exact E|exact F|exact Q| | | | |]; cbn; auto.
Qed.

(** ** What a resolution leaves behind *)

Lemma read_sitemaps_frame (net : network) (sitemaps : list string) :
  forall w,
    (forall u l, sitemap_cache w !! u = Some l ->
                 sitemap_cache (snd (read_sitemaps net sitemaps w)) !! u = Some l)
    /\ (forall u, ~ In u sitemaps ->
                  sitemap_cache (snd (read_sitemaps net sitemaps w)) !! u
                  = sitemap_cache w !! u)
    /\ queue (snd (read_sitemaps net sitemaps w)) = queue w.
Proof.
  induction sitemaps as [|sm rest IH]; intros w; [cbn; auto|].
  cbn [read_sitemaps]. unfold bind.
  set (w0 := emit (EvLog (LogReading sm)) w).
  destruct (get_sitemap_links_spec net sm w0) as (links & w1 & d & E & _).
  destruct (get_sitemap_links_frame net sm w0) as (K1 & O1 & Q1).
  rewrite E in *. cbn [snd] in *.
  destruct (IH w1) as (K2 & O2 & Q2).
  destruct (read_sitemaps net rest w1) as [[more|e] w2]; unfold ret; cbn [snd] in *.
  - split_ands.
    + intros u l H. apply K2, K1. exact H.
    + intros u N. rewrite O2, O1; [reflexivity| |]; intros H; apply N; [now left|now right].
    + now rewrite Q2, Q1.
  - split_ands.
    + intros u l H. apply K2, K1. exact H.
    + intros u N. rewrite O2, O1; [reflexivity| |]; intros H; apply N; [now left|now right].
    + now rewrite Q2, Q1.
Qed.

(** X5.  The cache of the resolver is written once per key.  A
    resolution never changes nor removes an entry that is there, adds at
    most the entry of the URL it resolves, and never touches the queue;
    the same holds for the resolution of the start sitemap and of its
    children in [find_articles_in_sitemap]. *)
Theorem sitemap_cache_is_write_once (net : network) (url start_sitemap : string)
    (year_from year_to : Z) (w : world) :
  (forall u l, sitemap_cache w !! u = Some l ->
               sitemap_cache (snd (get_sitemap_links net url w)) !! u = Some l)
  /\ (forall u, u <> url ->
                sitemap_cache (snd (get_sitemap_links net url w)) !! u = sitemap_cache w !! u)
  /\ queue (snd (get_sitemap_links net url w)) = queue w
  /\ (forall u l,
        sitemap_cache w !! u = Some l ->
        sitemap_cache (snd (all_article_urls net start_sitemap year_from year_to w)) !! u
        = Some l)
  /\ queue (snd (all_article_urls net start_sitemap year_from year_to w)) = queue w.
Proof.
  destruct (get_sitemap_links_frame net url w) as (K & O & Q).
  split; [exact K|]. split; [exact O|]. split; [exact Q|].
  unfold all_article_urls, bind.
  destruct (get_sitemap_links_spec net start_sitemap w) as (links & w1 & d & E & _).
  destruct (get_sitemap_links_frame net start_sitemap w) as (K1 & _ & Q1).
  rewrite E in *. cbn [snd] in *. unfold pure.
  destruct (filter_by_year year_from year_to links) as [filtered|e]; cbn [snd].
  - destruct (read_sitemaps_frame net filtered w1) as (K2 & _ & Q2).
    split.
    + intros u l H. apply K2, K1. exact H.
    + now rewrite Q2, Q1.
  - split; [exact K1|exact Q1].
Qed.

Lemma sitemap_cache_is_write_once_witness :
  sitemap_cache
    (snd (get_sitemap_links (net_status 500) child_2025
            (snd (get_sitemap_links (net_xml mixed_sitemap) sun_sitemap new_world))))
    !! sun_sitemap
  = Some (sitemap_links mixed_sitemap).
Proof.
  apply (proj1 (sitemap_cache_is_write_once (net_status 500) child_2025 sun_sitemap
                  2025 2025 _)).
  vm_compute. reflexivity.
Defined.

(** X6.  When the start sitemap is not cached and its three attempts all
    fail, [find_articles_in_sitemap] returns the empty list: three
    requests are made, no sitemap is read, no page is fetched, and the
    cache and the queue are as before. *)
Theorem find_articles_without_start_sitemap (net : network)
    (start_sitemap phrase : string) (year_from year_to : Z) (w : world) :
  sitemap_cache w !! start_sitemap = None ->
  (forall i, i < 3 -> sitemap_success (net (i + requests w) start_sitemap) = false) ->
  fst (find_articles_in_sitemap net start_sitemap phrase year_from year_to w) = Ret []
  /\ requests (snd (find_articles_in_sitemap net start_sitemap phrase year_from year_to w))
     = 3 + requests w
  /\ requested (skipn (length (trace w))
                  (trace (snd (find_articles_in_sitemap net start_sitemap phrase
                                 year_from year_to w))))
     = [start_sitemap; start_sitemap; start_sitemap]
  /\ sitemap_cache (snd (find_articles_in_sitemap net start_sitemap phrase
                           year_from year_to w))
     = sitemap_cache w
  /\ queue (snd (find_articles_in_sitemap net start_sitemap phrase year_from year_to w))
     = queue w.
Proof.
  intros C F. unfold find_articles_in_sitemap, all_article_urls, bind.
  rewrite (get_sitemap_links_miss net start_sitemap w C).
  destruct (sitemap_loop_run net start_sitemap (seq 0 3) w)
    as (segs & T & _ & RQ & _ & _ & _ & _ & _ & EX & _ & _ & RD).
  destruct (EX F) as (R & L & CA & Q).
  destruct (sitemap_loop net start_sitemap (seq 0 3) w) as [r w1]. cbn [fst snd] in *.
  subst r. cbn. rewrite T, skipn_app, skipn_all, Nat.sub_diag.
  change (skipn 0 (concat segs)) with (concat segs). cbn [app].
  rewrite RD, L, RQ, L. cbn. auto.
Qed.

Lemma find_articles_without_start_sitemap_witness :
  sitemap_cache new_world !! sun_sitemap = None
  /\ (forall i, i < 3 ->
        sitemap_success (net_status 500 (i + requests new_world) sun_sitemap) = false)
  /\ fst (find_articles_in_sitemap (net_status 500) sun_sitemap "dishy rishi"
            2025 2025 new_world) = Ret [].
Proof.
  assert (sitemap_cache new_world !! sun_sitemap = None) as C by (vm_compute; reflexivity).
  assert (forall i, i < 3 ->
            sitemap_success (net_status 500 (i + requests new_world) sun_sitemap) = false)
    as F by (intros i _; reflexivity).
  split_ands; [exact C|exact F|].
  apply (find_articles_without_start_sitemap (net_status 500) sun_sitemap "dishy rishi"
           2025 2025 new_world C F).
Defined.

(** ** The articles found and the records put *)

Lemma read_sitemaps_ret (net : network) (sitemaps : list string) (w : world) :
  exists urls w', read_sitemaps net sitemaps w = (Ret urls, w').
Proof.
  destruct (read_sitemaps_spec net sitemaps w) as (urls & w' & d & E & _). eauto.
Qed.

(** The part that resolves sitemaps is left by [TypeError] when a link
    of the start sitemap has no text, right after the start sitemap is
    resolved; otherwise it returns. *)
Lemma all_article_urls_cases (net : network) (start_sitemap : string)
    (year_from year_to : Z) (w w0 : world) (links : list (option string)) :
  get_sitemap_links net start_sitemap w = (Ret links, w0) ->
  queue w0 = queue w
  /\ (In None links ->
      all_article_urls net start_sitemap year_from year_to w = (Raise TypeError, w0))
  /\ (~ In None links ->
      exists urls w1,
        all_article_urls net start_sitemap year_from year_to w = (Ret urls, w1)
        /\ queue w1 = queue w).
Proof.
  intros E.
  destruct (get_sitemap_links_frame net start_sitemap w) as (_ & _ & Q0).
  rewrite E in Q0. cbn [snd] in Q0.
  unfold all_article_urls, bind, pure. rewrite E. split_ands; [exact Q0| |].
  - intros N. now rewrite (filter_by_year_none year_from year_to links N).
  - intros N. destruct (links_with_text links) as [H|[texts ->]]; [contradiction|].
    rewrite filter_by_year_texts.
    set (read := List.filter (year_in_range year_from year_to) texts).
    destruct (read_sitemaps_ret net read w0) as (urls & w1 & E1).
    destruct (read_sitemaps_frame net read w0) as (_ & _ & Q1).
    rewrite E1 in *. cbn [snd] in Q1. exists urls, w1. split; [reflexivity|congruence].
Qed.

Lemma extract_text_from_link_result (net : network) (link : option string)
    (phrase : string) (w : world) :
  exists r w',
    extract_text_from_link net link phrase EmptyString w = (Ret r, w')
    /\ sitemap_cache w' = sitemap_cache w
    /\ ((r = None /\ queue w' = queue w)
        \/ (exists url a,
              link = Some url /\ r = Some url /\ queue w' = queue w ++ [Some a]
              /\ a_url a = url /\ a_phrase a = phrase /\ 1 <= a_count a)).
Proof.
  destruct link as [url|]; cbn [extract_text_from_link].
  - rewrite extract_text_from_url_unfold.
    destruct (page_loop_result net url phrase EmptyString (seq 0 3) (emit EvAcquire w))
      as [C H].
    set (out := page_loop net url phrase EmptyString (seq 0 3) (emit EvAcquire w)) in *.
    destruct H as [[R Q1]|(R & i & xml & sp & _ & _ & _ & Pos & Q1)]; rewrite R.
    + exists None, (emit EvRelease (snd out)). split_ands; auto.
    + eexists (Some url), (emit EvRelease (snd out)). split_ands; auto.
      right. eexists url, _. cbn [queue emit]. split_ands; eauto.
  - eexists None, _. split; [reflexivity|]. cbn -[Nat.pow]. auto.
Qed.

Lemma gather_pages_spec (net : network) (phrase : string) (urls : list (option string)) :
  forall w,
  exists results w' puts,
    gather_pages net urls phrase w = (Ret results, w')
    /\ queue w' = queue w ++ map Some puts
    /\ omap id results = map a_url puts
    /\ sitemap_cache w' = sitemap_cache w
    /\ Forall (fun a => a_phrase a = phrase /\ 1 <= a_count a) puts
    /\ (forall u, In u (map a_url puts) -> In (Some u) urls).
Proof.
  induction urls as [|link rest IH]; intros w.
  - exists [], w, []. cbn. rewrite app_nil_r. split_ands; auto.
  - cbn [gather_pages]. unfold bind at 1.
    destruct (extract_text_from_link_result net link phrase w) as (r & w1 & E1 & C1 & H).
    rewrite E1. destruct (IH w1) as (results & w2 & puts & E & Q & O & C2 & F & U).
    unfold bind. rewrite E. unfold ret.
    destruct H as [[-> Q1]|(url & a & -> & -> & Q1 & Au & Ap & Ac)].
    + exists (None :: results), w2, puts.
      assert (omap id (None :: results) = omap id results) as -> by reflexivity.
      split_ands; auto.
      * now rewrite Q, Q1.
      * congruence.
      * intros u Hu. right. now apply U.
    + exists (Some url :: results), w2, (a :: puts).
      assert (omap id (Some url :: results) = url :: omap id results) as ->
          by reflexivity.
      cbn [map]. split_ands; auto.
      * rewrite Q, Q1, <- app_assoc. reflexivity.
      * now rewrite O, Au.
      * congruence.
      * intros u [<-|Hu]; [left; now rewrite Au|right; now apply U].
Qed.

Lemma find_articles_spec (net : network) (start_sitemap phrase : string)
    (year_from year_to : Z) (w w0 : world) (links : list (option string)) :
  get_sitemap_links net start_sitemap w = (Ret links, w0) ->
  (In None links ->
   find_articles_in_sitemap net start_sitemap phrase year_from year_to w
   = (Raise TypeError, w0)
   /\ queue w0 = queue w)
  /\ (~ In None links ->
      exists found w2 puts urls,
        find_articles_in_sitemap net start_sitemap phrase year_from year_to w
        = (Ret found, w2)
        /\ fst (all_article_urls net start_sitemap year_from year_to w) = Ret urls
        /\ queue w2 = queue w ++ map Some puts
        /\ found = map a_url puts
        /\ Forall (fun a => a_phrase a = phrase /\ 1 <= a_count a) puts
        /\ (forall u, In u found -> In (Some u) urls)).
Proof.
  intros E0.
  destruct (all_article_urls_cases net start_sitemap year_from year_to w w0 links E0)
    as (Q0 & Bad & Good).
  unfold find_articles_in_sitemap, bind. split.
  - intros N. now rewrite (Bad N).
  - intros N. destruct (Good N) as (urls & w1 & E & Q1).
    rewrite E. cbn [fst].
    destruct (gather_pages_spec net phrase urls w1)
      as (results & w2 & puts & E2 & Q2 & O & _ & F & U).
    rewrite E2. unfold ret.
    exists (omap id results), w2, puts, urls.
    split; [reflexivity|]. split; [reflexivity|]. split; [now rewrite Q2, Q1|].
    split; [exact O|]. split; [exact F|].
    intros u Hu. apply U. now rewrite <- O.
Qed.

(** X7.  [find_articles_in_sitemap] is left by [TypeError] when a link
    of the start sitemap has no text: the filter on the year raises before
    a child is read or a page is fetched, and the queue is as it was.
    Otherwise it returns, and the URLs it returns are, up to their order,
    the URLs of the records that the page fetches have put on the queue:
    one URL for each record and nothing else.  Each record carries the
    phrase and a count of at least 1, and each URL returned is one of the
    article links that the sitemaps gave. *)
Theorem find_articles_returns_urls_of_records (net : network)
    (start_sitemap phrase : string) (year_from year_to : Z) (w w0 : world)
    (links : list (option string)) :
  get_sitemap_links net start_sitemap w = (Ret links, w0) ->
  (In None links ->
   find_articles_in_sitemap net start_sitemap phrase year_from year_to w
   = (Raise TypeError, w0)
   /\ queue w0 = queue w)
  /\ (~ In None links ->
      exists found puts urls,
        fst (find_articles_in_sitemap net start_sitemap phrase year_from year_to w)
        = Ret found
        /\ fst (all_article_urls net start_sitemap year_from year_to w) = Ret urls
        /\ queue (snd (find_articles_in_sitemap net start_sitemap phrase
                         year_from year_to w))
           = queue w ++ map Some puts
        /\ Permutation found (map a_url puts)
        /\ Forall (fun a => a_phrase a = phrase /\ 1 <= a_count a) puts
        /\ (forall u, In u found -> In (Some u) urls)).
Proof.
  intros E0.
  destruct (find_articles_spec net start_sitemap phrase year_from year_to w w0 links E0)
    as [Bad Good].
  split; [exact Bad|]. intros N.
  destruct (Good N) as (found & w2 & puts & urls & E & A & Q & M & F & U).
  exists found, puts, urls. rewrite E. cbn [fst snd].
  split; [reflexivity|]. split; [exact A|]. split; [exact Q|].
  split; [now rewrite M|]. split; [exact F|exact U].
Qed.

Lemma find_articles_returns_urls_of_records_witness :
  get_sitemap_links net_site sun_sitemap new_world
  = (Ret [Some child_2024; Some child_2025],
     snd (get_sitemap_links net_site sun_sitemap new_world))
  /\ ~ In None [Some child_2024; Some child_2025]
  /\ fst (find_articles_in_sitemap net_site sun_sitemap "dishy rishi" 2025 2025 new_world)
     = Ret [sun_article]
  /\ exists puts,
      queue (snd (find_articles_in_sitemap net_site sun_sitemap "dishy rishi" 2025 2025
                    new_world))
      = queue new_world ++ map Some puts
      /\ Permutation [sun_article] (map a_url puts).
Proof.
  assert (get_sitemap_links net_site sun_sitemap new_world
          = (Ret [Some child_2024; Some child_2025],
             snd (get_sitemap_links net_site sun_sitemap new_world))) as E
      by (vm_compute; reflexivity).
  assert (~ In None [Some child_2024; Some child_2025]) as N
      by (intros [H|[H|[]]]; discriminate H).
  assert (fst (find_articles_in_sitemap net_site sun_sitemap "dishy rishi" 2025 2025
                 new_world) = Ret [sun_article]) as R by (vm_compute; reflexivity).
  split; [exact E|]. split; [exact N|]. split; [exact R|].
  destruct (proj2 (find_articles_returns_urls_of_records net_site sun_sitemap
                     "dishy rishi" 2025 2025 new_world _ _ E) N)
    as (found & puts & urls & Rf & _ & Q & P & _).
  rewrite R in Rf. injection Rf as <-. exists puts. split; [exact Q|exact P].
Defined.

(** ** [main] *)

Lemma init_db_unique (file : option database) :
  (forall db, file = Some db -> db_unique db) -> db_unique (init_db file).
Proof.
  intros H. destruct file as [db|]; cbn.
  - specialize (H db eq_refl). unfold db_unique in *. cbn. now rewrite app_nil_r.
  - constructor.
Qed.

(** What [main] does after [find_articles_in_sitemap]. *)
Lemma main_cases (net : network) (file : option database) (w0 : world)
    (links : list (option string)) :
  get_sitemap_links net main_sitemap_url new_world = (Ret links, w0) ->
  (In None links -> main net file = (Raise TypeError, w0) /\ queue w0 = [])
  /\ (~ In None links ->
      exists found puts w2 db',
        main net file = (Ret (found, Finished db'), put_end_of_stream w2)
        /\ found = map a_url puts
        /\ Forall (fun a => a_phrase a = main_phrase /\ 1 <= a_count a) puts
        /\ save_loop (map Some puts ++ [None]) [] (init_db file) = Finished db').
Proof.
  intros E0.
  destruct (find_articles_spec net main_sitemap_url main_phrase main_year_from
              main_year_to new_world w0 links E0) as [Bad Good].
  unfold main. split.
  - intros N. destruct (Bad N) as [-> Q]. auto.
  - intros N. destruct (Good N) as (found & w2 & puts & urls & E & _ & Q & M & F & _).
    rewrite E. cbv zeta. cbn [queue put_end_of_stream new_world app] in *.
    destruct (proj2 (save_loop_finished_iff (map Some puts ++ [None]) [] (init_db file)))
      as [db' Fin]; [apply in_or_app; right; now left|].
    exists found, puts, w2, db'. unfold save_to_db. rewrite Q, Fin. auto.
Qed.

(** X8.  When a link of the start sitemap has no text, [main] is left
    by [TypeError] before anything is put on the queue: the end-of-stream
    item is never put and nothing is stored.  Otherwise, when the table
    that the file holds, if any, has one row per URL, [main] ends with the
    worker returned, and every URL that it reports has exactly one
    committed row in the table; no URL has two rows, and the rows that were
    committed in the file before are still there. *)
Theorem main_stores_each_reported_article (net : network) (file : option database)
    (w0 : world) (links : list (option string)) :
  (forall db, file = Some db -> db_unique db) ->
  get_sitemap_links net main_sitemap_url new_world = (Ret links, w0) ->
  (In None links -> main net file = (Raise TypeError, w0) /\ queue w0 = [])
  /\ (~ In None links ->
      exists articles db' w,
        main net file = (Ret (articles, Finished db'), w)
        /\ (forall u, In u articles -> length (rows_with_url u (stored db')) = 1)
        /\ (forall u, length (rows_with_url u (stored db')) <= 1)
        /\ (forall db r, file = Some db -> In r (stored db) -> In r (stored db'))).
Proof.
  intros H E0. pose proof (init_db_unique file H) as U.
  destruct (main_cases net file w0 links E0) as [Bad Good].
  split; [exact Bad|]. intros N.
  destruct (Good N) as (found & puts & w2 & db' & E & M & _ & Fin).
  destruct (save_loop_spec (map Some puts ++ [None]) [] (init_db file) U)
    as (U' & [more S'] & I').
  rewrite Fin in U', S', I'. cbn [worker_db] in *.
  assert (List.NoDup (map row_url (stored db'))) as ND.
  { unfold db_unique in U'. rewrite map_app in U'. now apply NoDup_app_remove_r in U'. }
  exists found, db', (put_end_of_stream w2). split; [exact E|].
  split; [|split].
  - intros u Hu. subst found. apply in_map_iff in Hu as (a & <- & Ha).
    apply Nat.le_antisymm; [now apply rows_with_url_le_1|].
    apply rows_with_url_ge_1, (I' puts [] eq_refl). now right.
  - intros u. now apply rows_with_url_le_1.
  - intros db r -> Hr. rewrite S'. apply in_or_app. left. cbn. apply in_or_app. now left.
Qed.

Lemma main_stores_each_reported_article_witness :
  (forall db, @None database = Some db -> db_unique db)
  /\ get_sitemap_links net_site main_sitemap_url new_world
     = (Ret [Some child_2024; Some child_2025],
        snd (get_sitemap_links net_site main_sitemap_url new_world))
  /\ ~ In None [Some child_2024; Some child_2025]
  /\ exists db' w,
      main net_site None = (Ret ([sun_article], Finished db'), w)
      /\ length (rows_with_url sun_article (stored db')) = 1.
Proof.
  assert (forall db, @None database = Some db -> db_unique db) as H
      by (intros db E; discriminate E).
  assert (get_sitemap_links net_site main_sitemap_url new_world
          = (Ret [Some child_2024; Some child_2025],
             snd (get_sitemap_links net_site main_sitemap_url new_world))) as E
      by (vm_compute; reflexivity).
  assert (~ In None [Some child_2024; Some child_2025]) as N
      by (intros [K|[K|[]]]; discriminate K).
  split; [exact H|]. split; [exact E|]. split; [exact N|].
  destruct (proj2 (main_stores_each_reported_article net_site None _ _ H E) N)
    as (articles & db' & w & M & One & _).
  assert (exists d, fst (main net_site None) = Ret ([sun_article], d)) as [d Fd]
      by (eexists; vm_compute; reflexivity).
  rewrite M in Fd. cbn [fst] in Fd. injection Fd as -> _.
  exists db', w. split; [exact M|]. apply One. now left.
Defined.

(** ** The time spent in backoff *)

Lemma events_since_app (w w' : world) (d : list event) :
  trace w' = trace w ++ d -> events_since w w' = d.
Proof.
  intros E. unfold events_since. rewrite E, skipn_app, skipn_all, Nat.sub_diag.
  reflexivity.
Qed.

Lemma sitemap_loop_sleep (net : network) (url : string) (attempts : list nat) :
  forall w,
  exists d,
    trace (snd (sitemap_loop net url attempts w)) = trace w ++ d
    /\ total_sleep d <= list_sum (map (Nat.pow 2) attempts)
    /\ (sitemap_success (net (requests w) url) = true -> attempts <> [] ->
        total_sleep d = 0).
Proof.
  induction attempts as [|a rest IH]; intros w.
  - exists []. cbn. rewrite app_nil_r. split_ands; auto; congruence.
  - destruct (sitemap_success (net (requests w) url)) eqn:S0.
    + destruct (sitemap_success_inv _ S0) as (tree & html & E).
      rewrite (sitemap_loop_success net url a rest w tree html E).
      exists [EvGet url; EvParse url]. cbn -[Nat.pow]. split_ands; auto; lia.
    + rewrite (sitemap_loop_failed net url a rest w S0).
      destruct (IH (failed_attempt url a (net (requests w) url) w)) as (d & T & B & _).
      exists (EvGet url :: after_failed_request url a (net (requests w) url) ++ d).
      split_ands.
      * rewrite T. cbn [trace failed_attempt]. now rewrite <- app_assoc.
      * change (total_sleep (after_failed_request url a (net (requests w) url) ++ d)
                <= 2 ^ a + list_sum (map (Nat.pow 2) rest)).
        rewrite total_sleep_app.
        pose proof (total_sleep_after_failed url a (net (requests w) url)). lia.
      * discriminate.
Qed.

Lemma page_loop_sleep (net : network) (url phrase lms : string) (attempts : list nat) :
  forall w,
  exists d,
    trace (snd (page_loop net url phrase lms attempts w)) = trace w ++ d
    /\ total_sleep d <= list_sum (map (Nat.pow 2) attempts)
    /\ (page_success (net (requests w) url) = true -> attempts <> [] ->
        total_sleep d = 0).
Proof.
  induction attempts as [|a rest IH]; intros w.
  - exists []. cbn. rewrite app_nil_r. split_ands; auto; congruence.
  - destruct (page_success (net (requests w) url)) eqn:S0.
    + destruct (page_success_inv _ S0) as (xml & sp & E).
      destruct (page_loop_success net url phrase lms a rest w xml sp E)
        as (r & q & work & -> & W & _).
      exists (EvGet url :: EvParse url :: work). cbn -[Nat.pow].
      rewrite (total_sleep_page_work work W). split_ands; auto; lia.
    + rewrite (page_loop_failed net url phrase lms a rest w S0).
      destruct (IH (failed_attempt url a (net (requests w) url) w)) as (d & T & B & _).
      exists (EvGet url :: after_failed_request url a (net (requests w) url) ++ d).
      split_ands.
      * rewrite T. cbn [trace failed_attempt]. now rewrite <- app_assoc.
      * change (total_sleep (after_failed_request url a (net (requests w) url) ++ d)
                <= 2 ^ a + list_sum (map (Nat.pow 2) rest)).
        rewrite total_sleep_app.
        pose proof (total_sleep_after_failed url a (net (requests w) url)). lia.
      * discriminate.
Qed.

(** X9.  A fetch sleeps at most 1 + 2 + 4 = 7 seconds in all, and not at
    all when its first attempt returns; a resolution from the cache sleeps
    not at all.  The page fetcher holds its slot of the semaphore during
    these delays. *)
Theorem backoff_is_at_most_seven_seconds (net : network) (url phrase lms : string)
    (w : world) :
  total_sleep (events_since w (snd (get_sitemap_links net url w))) <= 7
  /\ total_sleep (events_since w (snd (extract_text_from_url net url phrase lms w))) <= 7
  /\ (sitemap_success (net (requests w) url) = true ->
      total_sleep (events_since w (snd (get_sitemap_links net url w))) = 0)
  /\ (page_success (net (requests w) url) = true ->
      total_sleep (events_since w (snd (extract_text_from_url net url phrase lms w))) = 0)
  /\ (forall links, sitemap_cache w !! url = Some links ->
      events_since w (snd (get_sitemap_links net url w)) = []).
Proof.
  assert (total_sleep (events_since w (snd (get_sitemap_links net url w))) <= 7
          /\ (sitemap_success (net (requests w) url) = true ->
              total_sleep (events_since w (snd (get_sitemap_links net url w))) = 0)
          /\ (forall links, sitemap_cache w !! url = Some links ->
              events_since w (snd (get_sitemap_links net url w)) = [])) as (A1 & A2 & A3).
  { destruct (sitemap_cache w !! url) as [cached|] eqn:C.
    - rewrite (get_sitemap_links_hit net url w cached C). cbn [snd].
      rewrite (events_since_app w w []) by (now rewrite app_nil_r).
      cbn. split_ands; auto. lia.
    - rewrite (get_sitemap_links_miss net url w C).
      destruct (sitemap_loop_sleep net url (seq 0 3) w) as (d & T & B & Z).
      rewrite (events_since_app _ _ d T). cbn in B.
      split_ands; [lia| |discriminate]. intros S0. apply Z; [exact S0|discriminate]. }
  assert (exists d,
             events_since w (snd (extract_text_from_url net url phrase lms w))
             = EvAcquire :: d ++ [EvRelease]
             /\ total_sleep d <= 7
             /\ (page_success (net (requests w) url) = true -> total_sleep d = 0))
    as (d & E & B & Z).
  { rewrite extract_text_from_url_unfold. cbn [snd].
    destruct (page_loop_sleep net url phrase lms (seq 0 3) (emit EvAcquire w))
      as (d & T & B & Z).
    exists d. split_ands.
    - apply events_since_app. rewrite trace_emit, T, trace_emit, <- !app_assoc.
      reflexivity.
    - cbn in B. lia.
    - intros S0. apply Z; [exact S0|discriminate]. }
  rewrite E. cbn [total_sleep]. rewrite total_sleep_app. cbn [total_sleep].
  split_ands; auto; try lia. intros S0. rewrite (Z S0). reflexivity.
Qed.

Lemma backoff_is_at_most_seven_seconds_witness :
  page_success (net_page sample_page (requests new_world) sun_article) = true
  /\ total_sleep (events_since new_world
                    (snd (extract_text_from_url (net_page sample_page) sun_article
                            "dishy rishi" EmptyString new_world))) = 0.
Proof.
  assert (page_success (net_page sample_page (requests new_world) sun_article) = true)
    as S0 by reflexivity.
  split; [exact S0|].
  exact (proj1 (proj2 (proj2 (proj2 (backoff_is_at_most_seven_seconds
                                       (net_page sample_page) sun_article
                                       "dishy rishi" EmptyString new_world)))) S0).
Defined.

(** ** The range of years *)

Lemma is_digit_value (c : ascii) :
  is_digit c = true -> (0 <= Z.of_nat (code c) - 48 <= 9)%Z.
Proof.
  unfold is_digit, in_range. intros H. apply andb_prop in H as [L U].
  apply Nat.leb_le in L. apply Nat.leb_le in U. lia.
Qed.

Lemma int_of_four_digits (y : list ascii) :
  length y = 4 -> forallb is_digit y = true -> (0 <= int_of_digits y <= 9999)%Z.
Proof.
  intros L D.
  destruct y as [|y1 [|y2 [|y3 [|y4 [|]]]]]; try discriminate.
  cbn in D. repeat (apply andb_prop in D as [? D]).
  repeat match goal with
         | H : is_digit _ = true |- _ => apply is_digit_value in H
         end.
  unfold int_of_digits. cbn [fold_left]. lia.
Qed.

Lemma year_in_range_bounds (year_from year_to : Z) (link : string) :
  year_in_range year_from year_to link = true ->
  (year_from <= year_to /\ year_from <= 9999 /\ 0 <= year_to)%Z.
Proof.
  intros H. apply year_in_range_iff in H as (pre & y & post & (_ & L & D) & _ & R).
  pose proof (int_of_four_digits y L D). lia.
Qed.

(** X10.  The year read from a link is a number from 0 to 9999, so with a
    range that is empty ([year_to] below [year_from]) or that lies outside
    0..9999 no link passes the filter: when every link of the start
    sitemap has a text, [find_articles_in_sitemap] then returns the empty
    list after resolving the start sitemap, and does nothing else; when
    one has none it is left by [TypeError], as with every range.  A link
    that passes the filter of a range passes the filter of every wider
    range. *)
Theorem find_articles_with_empty_year_range (net : network)
    (start_sitemap phrase : string) (year_from year_to : Z) (w w0 : world)
    (links : list (option string)) :
  get_sitemap_links net start_sitemap w = (Ret links, w0) ->
  ((year_to < year_from \/ 9999 < year_from \/ year_to < 0)%Z ->
   (~ In None links ->
    find_articles_in_sitemap net start_sitemap phrase year_from year_to w = (Ret [], w0))
   /\ (In None links ->
       find_articles_in_sitemap net start_sitemap phrase year_from year_to w
       = (Raise TypeError, w0)))
  /\ (forall link from' to',
        isascii link = true ->
        year_in_range year_from year_to link = true ->
        (from' <= year_from)%Z -> (year_to <= to')%Z ->
        year_in_range from' to' link = true).
Proof.
  intros E. split.
  - intros R. unfold find_articles_in_sitemap, all_article_urls, bind, pure.
    rewrite E. split.
    + intros N. destruct (links_with_text links) as [H|[texts ->]]; [contradiction|].
      rewrite filter_by_year_texts.
      assert (List.filter (year_in_range year_from year_to) texts = []) as ->.
      { clear E N. induction texts as [|l texts IH]; [reflexivity|]. cbn.
        destruct (year_in_range year_from year_to l) eqn:Y; [|exact IH].
        apply year_in_range_bounds in Y. lia. }
      reflexivity.
    + intros N. now rewrite (filter_by_year_none year_from year_to links N).
  - intros link from' to' _ H L U. unfold year_in_range in *.
    destruct (re_search false year_pattern link) as [[[b m] rest]|]; [|discriminate].
    apply andb_prop in H as [H1 H2]. apply Z.leb_le in H1. apply Z.leb_le in H2.
    apply andb_true_intro. split; apply Z.leb_le; lia.
Qed.

Lemma find_articles_with_empty_year_range_witness :
  get_sitemap_links net_site sun_sitemap new_world
  = (Ret [Some child_2024; Some child_2025],
     snd (get_sitemap_links net_site sun_sitemap new_world))
  /\ ~ In None [Some child_2024; Some child_2025]
  /\ find_articles_in_sitemap net_site sun_sitemap "dishy rishi" 2026 2025 new_world
     = (Ret [], snd (get_sitemap_links net_site sun_sitemap new_world)).
Proof.
  assert (get_sitemap_links net_site sun_sitemap new_world
          = (Ret [Some child_2024; Some child_2025],
             snd (get_sitemap_links net_site sun_sitemap new_world))) as E
      by (vm_compute; reflexivity).
  assert (~ In None [Some child_2024; Some child_2025]) as N
      by (intros [K|[K|[]]]; discriminate K).
  split; [exact E|]. split; [exact N|].
  apply (proj1 (find_articles_with_empty_year_range net_site sun_sitemap "dishy rishi"
                  2026 2025 new_world _ _ E)); [left; lia|exact N].
Defined.

(** ** The shape of a date *)

Lemma chars_string_of_list (l : list ascii) : chars (string_of_list_ascii l) = l.
Proof. unfold chars. apply list_ascii_of_string_of_list_ascii. Qed.

Lemma length_string_of_list (l : list ascii) :
  String.length (string_of_list_ascii l) = length l.
Proof. induction l as [|c l IH]; cbn; congruence. Qed.

Lemma hyphenated_is_iso (y m d : list ascii) :
  length y = 4 -> length m = 2 -> length d = 2 ->
  forallb is_digit (y ++ m ++ d) = true ->
  is_iso_date (hyphenated y m d) = true.
Proof.
  intros Ly Lm Ld D. unfold is_iso_date, hyphenated. rewrite chars_string_of_list.
  destruct y as [|y1 [|y2 [|y3 [|y4 [|]]]]]; try discriminate.
  destruct m as [|m1 [|m2 [|]]]; try discriminate.
  destruct d as [|d1 [|d2 [|]]]; try discriminate.
  cbn in D. repeat (apply andb_prop in D as [? D]).
  cbn. rewrite !Ascii.eqb_refl.
  repeat match goal with H : is_digit _ = true |- _ => rewrite H; clear H end.
  reflexivity.
Qed.

Lemma month_pattern_classes : fixed_classes false month_pattern = Some month_classes.
Proof. reflexivity. Qed.

(** The month of a date of the shape [dddd-dd-dd] is its first seven
    characters. *)
Lemma iso_date_month (date : string) :
  is_iso_date date = true ->
  exists rest,
    re_search false month_pattern date
    = Some ([], chars (substring 0 7 date), rest)
    /\ String.length (substring 0 7 date) = 7.
Proof.
  unfold is_iso_date. intros H.
  destruct (split_match iso_classes (chars date)) as [[m [|]]|] eqn:E; try discriminate.
  clear H. pose proof (split_match_sound _ _ _ _ E) as [S F].
  rewrite app_nil_r in S. unfold iso_classes in F. cbn in F. revert S.
  repeat match goal with
         | H : Forall2 _ (_ :: _) _ |- _ => inversion H; clear H; subst
         | H : Forall2 _ [] _ |- _ => inversion H; clear H; subst
         end.
  repeat match goal with
         | H : Ascii.eqb hyphen _ = true |- _ => apply Ascii.eqb_eq in H; subst
         end.
  intros S.
  assert (date = string_of_list_ascii (chars date)) as D
    by (unfold chars; now rewrite string_of_list_ascii_of_string).
  rewrite S in D. clear S. subst date.
  unfold re_search. cbn [string_of_list_ascii list_ascii_of_string].
  cbn [search_from]. rewrite (ends_fixed false month_pattern _ _ _ month_pattern_classes).
  cbn. unfold chr_matches. rewrite !Ascii.eqb_refl.
  repeat match goal with H : is_digit _ = true |- _ => rewrite H; clear H end.
  cbn. eexists. split; reflexivity.
Qed.

(** X11.  The date of a page is never the empty string.  When it comes
    from the metadata (a content that satisfies [isascii]) it is the
    beginning of the content, of at most ten characters.  When there is no
    metadata content and the URL satisfies [isascii], it is the sentinel or
    has the shape [dddd-dd-dd], and the page fetcher, whose cell for the
    last month is fresh, then logs its first seven characters as the
    month. *)
Theorem extract_date_shape (sp : soup) (url : string) (w : world) :
  extract_date sp url <> EmptyString
  /\ (forall c,
        meta_published_time sp = Some (Some c)
        \/ (meta_published_time sp = None /\ meta_name_date sp = Some (Some c)) ->
        c <> EmptyString -> isascii c = true ->
        String.length (extract_date sp url) = Nat.min 10 (String.length c)
        /\ String.prefix (extract_date sp url) c = true)
  /\ (no_meta_content sp -> isascii url = true ->
      extract_date sp url = unknown_date
      \/ (is_iso_date (extract_date sp url) = true
          /\ String.length (extract_date sp url) = 10
          /\ log_month (extract_date sp url) EmptyString w
             = emit (EvLog (LogMonth (substring 0 7 (extract_date sp url)))) w)).
Proof.
  assert (forall n s, String.length (substring 0 n s) = Nat.min n (String.length s)) as SL.
  { induction n as [|n IH]; intros [|c s]; cbn; auto. }
  assert (forall n s, String.prefix (substring 0 n s) s = true) as SP.
  { induction n as [|n IH]; intros [|c s]; cbn; auto. rewrite IH.
    destruct (ascii_dec c c); [reflexivity|congruence]. }
  assert (match url_date url with Some d => d | None => unknown_date end
          = unknown_date
          \/ (exists r, url_date url = Some r
                        /\ is_iso_date r = true /\ String.length r = 10
                        /\ log_month r EmptyString w
                           = emit (EvLog (LogMonth (substring 0 7 r))) w)) as U.
  { pose proof (url_date_spec url) as S.
    destruct (url_date url) as [r|]; [right|now left].
    destruct S as (pre & y & m & d & post & (_ & Ly & Lm & Ld & D) & _ & ->).
    pose proof (hyphenated_is_iso y m d Ly Lm Ld D) as I.
    eexists. split; [reflexivity|]. split; [exact I|]. split.
    - unfold hyphenated. rewrite length_string_of_list, length_app. cbn.
      rewrite length_app. cbn. lia.
    - destruct (iso_date_month _ I) as (rest & R & L).
      unfold log_month. rewrite R.
      assert (string_of_list_ascii (chars (substring 0 7 (hyphenated y m d)))
              = substring 0 7 (hyphenated y m d)) as ->
        by (unfold chars; apply string_of_list_ascii_of_string).
      destruct (substring 0 7 (hyphenated y m d)); [discriminate|reflexivity]. }
  split_ands.
  - assert (match url_date url with Some d => d | None => unknown_date end
            <> EmptyString) as NE.
    { destruct U as [->|(r & -> & _ & L & _)]; [discriminate|].
      intros ->. discriminate L. }
    unfold extract_date. destruct (meta_date sp) as [[[|c content]|]|]; try exact NE.
    discriminate.
  - intros c M Ne _.
    assert (meta_date sp = Some (Some c)) as M'.
    { unfold meta_date. destruct M as [->|[-> M]]; [reflexivity|exact M]. }
    unfold extract_date. rewrite M'.
    destruct c as [|c content]; [congruence|]. split; [apply SL|apply SP].
  - intros NoMeta _. rewrite (extract_date_without_meta sp url NoMeta).
    destruct U as [->|(r & -> & I & L & G)]; [now left|right; auto].
Qed.

Lemma extract_date_shape_witness :
  no_meta_content page_with_empty_meta
  /\ isascii sun_article = true
  /\ is_iso_date (extract_date page_with_empty_meta sun_article) = true
  /\ log_month (extract_date page_with_empty_meta sun_article) EmptyString new_world
     = emit (EvLog (LogMonth "2025-03")) new_world.
Proof.
  assert (no_meta_content page_with_empty_meta) as N by exact I.
  assert (isascii sun_article = true) as A by reflexivity.
  split; [exact N|]. split; [exact A|].
  destruct (proj2 (proj2 (extract_date_shape page_with_empty_meta sun_article new_world))
              N A) as [E|(Iso & _ & G)].
  - vm_compute in E. discriminate E.
  - split; [exact Iso|]. rewrite G. reflexivity.
Defined.

(** ** The entries of a sitemap document *)

Lemma findall_path_In (root : element) (a b : string) (e : element) :
  In e (findall_path root a b)
  <-> exists c, In c (children_of root) /\ tag_of c = a
                /\ In e (children_of c) /\ tag_of e = b.
Proof.
  unfold findall_path. rewrite in_flat_map. split.
  - intros (c & Hc & He). apply List.filter_In in Hc as [Hc Ta].
    apply List.filter_In in He as [He Tb].
    apply String.eqb_eq in Ta. apply String.eqb_eq in Tb. eauto 6.
  - intros (c & Hc & Ta & He & Tb). exists c.
    rewrite !List.filter_In, !String.eqb_eq. auto.
Qed.

(** X12.  When an attempt of the resolver succeeds, the links it
    returns are the texts of the [loc] elements inside the [url] entries of
    the document, or, when no [url] entry has a [loc], inside its [sitemap]
    entries; root, entry and [loc] are matched with the namespace of
    sitemaps.  So every link returned comes from such an element, every
    such element under a [url] entry gives a link, and a document whose
    entries have another namespace, or none, gives the empty list, which
    is cached like any other result. *)
Theorem sitemap_links_are_namespaced_entries (net : network) (url : string) (w : world)
    (i : nat) (tree : element) (html : option soup) :
  sitemap_cache w !! url = None ->
  i < 3 ->
  (forall j, j < i -> sitemap_success (net (j + requests w) url) = false) ->
  net (i + requests w) url = Response 200 (Body (Some tree) html) ->
  exists links,
    fst (get_sitemap_links net url w) = Ret links
    /\ sitemap_cache (snd (get_sitemap_links net url w)) !! url = Some links
    /\ (forall link,
          In link links ->
          exists e,
            text_of e = link
            /\ (is_entry_loc tree "url" e \/ is_entry_loc tree "sitemap" e))
    /\ (forall e, is_entry_loc tree "url" e ->
          In (text_of e) links
          /\ forall link, In link links ->
               exists e', text_of e' = link /\ is_entry_loc tree "url" e')
    /\ ((forall e, ~ is_entry_loc tree "url" e) ->
        forall e, is_entry_loc tree "sitemap" e -> In (text_of e) links)
    /\ ((forall c, In c (children_of tree) ->
           tag_of c <> String.append namespace "url"
           /\ tag_of c <> String.append namespace "sitemap") ->
        links = []).
Proof.
  intros C Hi F E.
  rewrite (get_sitemap_links_miss net url w C).
  destruct (sitemap_loop_cache net url (seq 0 3) w) as [_ SU].
  destruct (SU i tree html Hi F E) as (R & CA & _).
  exists (sitemap_links tree). rewrite R, CA, lookup_insert_eq.
  split; [reflexivity|]. split; [reflexivity|].
  assert (forall entry e,
             In e (findall_path tree (String.append namespace entry)
                     (String.append namespace "loc"))
             <-> is_entry_loc tree entry e) as P.
  { intros entry e. unfold is_entry_loc. apply findall_path_In. }
  unfold sitemap_links.
  destruct (findall_path tree (String.append namespace "url")
              (String.append namespace "loc")) as [|e0 leaves] eqn:L.
  - split_ands.
    + intros link H. apply in_map_iff in H as (e & T & H).
      exists e. split; [exact T|]. right. now apply P.
    + intros e He. apply P in He. rewrite L in He. destruct He.
    + intros _ e He. apply in_map. now apply P.
    + intros N.
      destruct (findall_path tree (String.append namespace "sitemap")
                  (String.append namespace "loc")) as [|e l] eqn:G; [reflexivity|].
      assert (is_entry_loc tree "sitemap" e) as (c & Hc & Tc & _)
          by (apply P; rewrite G; now left).
      destruct (N c Hc) as [_ N2]. contradiction.
  - split_ands.
    + intros link H. apply in_map_iff in H as (e & T & H).
      exists e. split; [exact T|]. left. apply P. now rewrite L.
    + intros e He. split.
      * apply in_map. apply P in He. now rewrite L in He.
      * intros link H. apply in_map_iff in H as (e' & T & H).
        exists e'. split; [exact T|]. apply P. now rewrite L.
    + intros N. exfalso. apply (N e0). apply P. rewrite L. now left.
    + intros N. exfalso.
      assert (is_entry_loc tree "url" e0) as (c & Hc & Tc & _)
          by (apply P; rewrite L; now left).
      destruct (N c Hc) as [N1 _]. contradiction.
Qed.

Lemma sitemap_links_are_namespaced_entries_witness :
  sitemap_cache new_world !! sun_sitemap = None
  /\ exists links,
      fst (get_sitemap_links (net_document mixed_sitemap sample_page) sun_sitemap
             new_world) = Ret links
      /\ In (Some "https://www.thesun.co.uk/news/1/") links.
Proof.
  assert (sitemap_cache new_world !! sun_sitemap = None) as C by (vm_compute; reflexivity).
  split; [exact C|].
  destruct (sitemap_links_are_namespaced_entries
              (net_document mixed_sitemap sample_page) sun_sitemap new_world 0
              mixed_sitemap (Some sample_page) C)
    as (links & R & _ & _ & Leaf & _); [lia|intros j Hj; lia|reflexivity|].
  exists links. split; [exact R|].
  apply (Leaf (loc "https://www.thesun.co.uk/news/1/")).
  exists (Element (ns "url") None [loc "https://www.thesun.co.uk/news/1/"]).
  split_ands; [right; now left|reflexivity|now left|reflexivity].
Defined.

(** ** A bound on the counts *)

(** When every match of a pattern has at least [n] characters, the
    matches that [findall] reports fit in the text one behind the other. *)
Lemma findall_from_bound (ic : bool) (r : regex) (n : nat) :
  0 < n ->
  (forall b s z, In z (ends ic r (b, s)) -> n <= consumed s z <= length s) ->
  forall s skip b,
    n * length (findall_from ic r skip b s) <= length s - skip.
Proof.
  intros Pos W. induction s as [|c s IH]; intros skip b.
  - destruct skip as [|k]; cbn [findall_from]; [|cbn; lia].
    destruct (ends ic r (b, [])) as [|z more] eqn:E; [cbn; lia|].
    assert (In z (ends ic r (b, []))) as I by (rewrite E; now left).
    apply W in I. cbn in I. lia.
  - destruct skip as [|k]; cbn [findall_from].
    + destruct (ends ic r (b, c :: s)) as [|z more] eqn:E.
      * cbn [map matches_here List.last pred app]. specialize (IH 0 (c :: b)).
        cbn [length]. lia.
      * assert (In z (ends ic r (b, c :: s))) as I by (rewrite E; now left).
        apply W in I. cbn [map]. rewrite matches_here_positive by lia.
        cbn [map List.last app]. specialize (IH (pred (consumed (c :: s) z)) (c :: b)).
        cbn [length] in *. nia.
    + specialize (IH k (c :: b)). cbn [length]. lia.
Qed.

Lemma count_pattern_consumed (phrase : string) (b s : list ascii) (z : cursor) :
  In z (ends false (count_pattern phrase) (b, s)) ->
  length (chars phrase) <= consumed s z <= length s.
Proof.
  rewrite ends_count_pattern. destruct (at_word_boundary (b, s)); [|intros []].
  destruct (strip_prefix (chars phrase) s) as [rest|] eqn:SP; [|intros []].
  apply strip_prefix_spec in SP. subst s. intros H. apply List.filter_In in H as [H _].
  destruct (star_ends_spec trail_class rest (rev (chars phrase) ++ b)) as (front & E & F).
  rewrite E in H. apply in_app_or in H as [H|[<-|[]]].
  - rewrite List.Forall_forall in F. destruct (F z H) as (k & Hk & _ & ->).
    unfold consumed. cbn [snd]. rewrite length_app, length_skipn. lia.
  - unfold consumed. cbn [snd]. rewrite length_app. lia.
Qed.

Lemma phrase_pattern_consumed (phrase : string) (b s : list ascii) (z : cursor) :
  In z (ends true (phrase_pattern phrase) (b, s)) ->
  length (chars (lower phrase)) <= consumed s z <= length s.
Proof.
  rewrite ends_phrase_pattern.
  destruct (strip_prefix_ci (chars (lower phrase)) s) as [rest|] eqn:SP; [|intros []].
  destruct (page_match_at (chars (lower phrase)) (b, s)); [|intros []].
  intros [<-|[]]. unfold consumed. cbn [snd].
  rewrite (strip_prefix_ci_length _ _ _ SP). lia.
Qed.

(** X14.  For a text and a phrase that satisfy [isascii], neither count
    exceeds the number of copies of the phrase that fit in the text one
    behind the other: the count times the length of the phrase is at most
    the length of the text.  A text shorter than the phrase has no
    occurrence. *)
Theorem counts_fit_in_the_text (text phrase : string) :
  isascii text = true ->
  isascii phrase = true ->
  count_phrase_occurrences text phrase * String.length phrase <= String.length text
  /\ page_occurrences text phrase * String.length phrase <= String.length text
  /\ (String.length text < String.length phrase ->
      count_phrase_occurrences text phrase = 0 /\ page_occurrences text phrase = 0).
Proof.
  intros _ _.
  assert (count_phrase_occurrences text phrase * String.length phrase
          <= String.length text) as A.
  { destruct (String.length phrase) as [|n] eqn:L; [lia|].
    unfold count_phrase_occurrences, re_findall. fold (chars (lower text)).
    pose proof (findall_from_bound false (count_pattern (lower phrase)) (S n)
                  ltac:(lia)) as B.
    rewrite <- L, <- length_chars_lower in B.
    specialize (B (count_pattern_consumed (lower phrase)) (chars (lower text)) 0 []).
    rewrite !length_chars_lower in B.
    rewrite <- L. lia. }
  assert (page_occurrences text phrase * String.length phrase <= String.length text) as B.
  { destruct (String.length phrase) as [|n] eqn:L; [lia|].
    unfold page_occurrences, re_findall. fold (chars text).
    pose proof (findall_from_bound true (phrase_pattern phrase) (S n) ltac:(lia)) as B.
    rewrite <- L, <- length_chars_lower in B.
    specialize (B (phrase_pattern_consumed phrase) (chars text) 0 []).
    rewrite length_chars_lower, length_chars in B.
    rewrite <- L. lia. }
  split; [exact A|]. split; [exact B|].
  intros L. split; nia.
Qed.

Lemma counts_fit_in_the_text_witness :
  isascii "rishi rishi, rishi." = true
  /\ isascii "rishi" = true
  /\ count_phrase_occurrences "rishi rishi, rishi." "rishi" * String.length "rishi"
     <= String.length "rishi rishi, rishi."
  /\ page_occurrences "rishi rishi, rishi." "rishi" * String.length "rishi"
     <= String.length "rishi rishi, rishi.".
Proof.
  assert (isascii "rishi rishi, rishi." = true) as T by reflexivity.
  assert (isascii "rishi" = true) as P by reflexivity.
  split; [exact T|]. split; [exact P|].
  pose proof (counts_fit_in_the_text "rishi rishi, rishi." "rishi" T P) as (A & B & _).
  split; [exact A|exact B].
Defined.

(** ** The case of the letters *)

Lemma lower_char_idem (c : ascii) : lower_char (lower_char c) = lower_char c.
Proof. destruct c as [[] [] [] [] [] [] [] []]; vm_compute; reflexivity. Qed.

Lemma lower_char_newline (c : ascii) :
  Ascii.eqb (lower_char c) newline = Ascii.eqb c newline.
Proof. destruct c as [[] [] [] [] [] [] [] []]; vm_compute; reflexivity. Qed.

Lemma strip_prefix_ci_lower (p : list ascii) :
  forall s,
    strip_prefix_ci p (lower_chars s) = option_map lower_chars (strip_prefix_ci p s).
Proof.
  induction p as [|x p IH]; intros s; [reflexivity|].
  destruct s as [|c s]; [reflexivity|]. cbn. rewrite lower_char_idem.
  destruct (Ascii.eqb (lower_char x) (lower_char c)); [apply IH|reflexivity].
Qed.

Lemma followed_by_text_lower (rest : list ascii) :
  followed_by_text (lower_chars rest) = followed_by_text rest.
Proof.
  destruct rest as [|c [|c2 r]]; cbn; rewrite ?is_word_lower_char, ?lower_char_newline;
    reflexivity.
Qed.

Lemma page_match_at_lower (p b s : list ascii) :
  page_match_at p (lower_chars b, lower_chars s) = page_match_at p (b, s).
Proof.
  unfold page_match_at, word_before. cbn [fst snd].
  rewrite head_is_word_lower, strip_prefix_ci_lower.
  destruct (strip_prefix_ci p s) as [rest|]; [|reflexivity].
  cbn [option_map]. now rewrite followed_by_text_lower.
Qed.

Lemma page_scan_lower (p : list ascii) :
  forall s skip b,
    page_scan p skip (lower_chars b) (lower_chars s) = page_scan p skip b s.
Proof.
  induction s as [|c s IH]; intros skip b.
  - destruct skip; [|reflexivity]. cbn [lower_chars map page_scan].
    change (@nil ascii) with (lower_chars []) at 1. now rewrite page_match_at_lower.
  - destruct skip; cbn [lower_chars map page_scan].
    + change (lower_char c :: map lower_char s) with (lower_chars (c :: s)).
      rewrite page_match_at_lower.
      change (lower_char c :: lower_chars b) with (lower_chars (c :: b)).
      fold (lower_chars s). now rewrite !IH.
    + change (lower_char c :: lower_chars b) with (lower_chars (c :: b)).
      fold (lower_chars s). apply IH.
Qed.

Lemma page_occurrences_lower (text phrase : string) :
  page_occurrences text phrase
  = page_scan (chars (lower phrase)) 0 [] (chars (lower text)).
Proof.
  unfold page_occurrences, re_findall. fold (chars text).
  rewrite findall_page_scan, (chars_lower text). symmetry.
  apply (page_scan_lower (chars (lower phrase)) (chars text) 0 []).
Qed.

Lemma lower_String (c : ascii) (s : string) :
  lower (String c s) = String (lower_char c) (lower s).
Proof. reflexivity. Qed.

Lemma lower_append (a b : string) :
  lower (String.append a b) = String.append (lower a) (lower b).
Proof.
  induction a as [|c a IH]; [reflexivity|].
  change (String.append (String c a) b) with (String c (String.append a b)).
  rewrite !lower_String, IH. reflexivity.
Qed.

Lemma lower_idem (s : string) : lower (lower s) = lower s.
Proof.
  induction s as [|c s IH]; [reflexivity|].
  now rewrite !lower_String, lower_char_idem, IH.
Qed.

Lemma lower_concat_lower (sep : string) (l : list string) :
  lower (String.concat sep (map lower l)) = lower (String.concat sep l).
Proof.
  induction l as [|x l IH]; [reflexivity|].
  destruct l as [|y l]; [apply lower_idem|].
  change (lower (String.append (lower x)
                   (String.append sep (String.concat sep (map lower (y :: l)))))
          = lower (String.append x (String.append sep (String.concat sep (y :: l))))).
  now rewrite !lower_append, lower_idem, IH.
Qed.

(** X15.  For texts and phrases that satisfy [isascii], the count of
    the page fetcher does not depend on the case of the letters: texts
    that are equal in lower case, with phrases that are equal in lower
    case, have the same count.  So the page fetcher, which matches with
    IGNORECASE, would count the same in the sections as they are as it
    counts in their lower case. *)
Theorem counts_ignore_case (text1 text2 phrase1 phrase2 : string) :
  isascii text1 = true -> isascii text2 = true ->
  isascii phrase1 = true -> isascii phrase2 = true ->
  lower text1 = lower text2 ->
  lower phrase1 = lower phrase2 ->
  page_occurrences text1 phrase1 = page_occurrences text2 phrase2
  /\ (forall sp,
        Forall (fun section => isascii section = true) (soup_sections sp) ->
        page_occurrences (article_text_of sp) phrase1
        = page_occurrences (String.concat (String newline EmptyString) (soup_sections sp))
            phrase2).
Proof.
  intros _ _ _ _ T P. split.
  - now rewrite !page_occurrences_lower, T, P.
  - intros sp _. rewrite !page_occurrences_lower, P. unfold article_text_of.
    now rewrite lower_concat_lower.
Qed.

Lemma counts_ignore_case_witness :
  isascii "Dishy RISHI is back." = true
  /\ isascii "dishy rishi IS BACK." = true
  /\ isascii "Dishy Rishi" = true
  /\ isascii "dishy rishi" = true
  /\ lower "Dishy RISHI is back." = lower "dishy rishi IS BACK."
  /\ lower "Dishy Rishi" = lower "dishy rishi"
  /\ page_occurrences "Dishy RISHI is back." "Dishy Rishi"
     = page_occurrences "dishy rishi IS BACK." "dishy rishi".
Proof.
  assert (isascii "Dishy RISHI is back." = true) as A1 by reflexivity.
  assert (isascii "dishy rishi IS BACK." = true) as A2 by reflexivity.
  assert (isascii "Dishy Rishi" = true) as A3 by reflexivity.
  assert (isascii "dishy rishi" = true) as A4 by reflexivity.
  assert (lower "Dishy RISHI is back." = lower "dishy rishi IS BACK.") as T
    by reflexivity.
  assert (lower "Dishy Rishi" = lower "dishy rishi") as P by reflexivity.
  split_ands; [exact A1|exact A2|exact A3|exact A4|exact T|exact P|].
  exact (proj1 (counts_ignore_case _ _ _ _ A1 A2 A3 A4 T P)).
Defined.

(** ** Which record a row carries *)

Lemma first_with_url_app (u : string) (l1 l2 : list article) :
  first_with_url u (l1 ++ l2)
  = match first_with_url u l1 with
    | Some a => Some a
    | None => first_with_url u l2
    end.
Proof.
  unfold first_with_url. induction l1 as [|a l1 IH]; [reflexivity|].
  cbn. now destruct (String.eqb (a_url a) u).
Qed.

Lemma first_with_url_none (u : string) (l : list article) :
  ~ In u (map a_url l) -> first_with_url u l = None.
Proof.
  unfold first_with_url. induction l as [|a l IH]; [reflexivity|].
  cbn. intros N. destruct (String.eqb_spec (a_url a) u) as [E|_]; [tauto|].
  apply IH. tauto.
Qed.

Lemma insert_or_ignore_rows (db : database) (a : article) (r : row) :
  In r (stored (insert_or_ignore db a) ++ pending (insert_or_ignore db a)) ->
  In r (stored db ++ pending db)
  \/ (~ In (a_url a) (map row_url (stored db ++ pending db))
      /\ row_article r = a).
Proof.
  unfold insert_or_ignore.
  destruct (has_url (a_url a) (stored db ++ pending db)) eqn:H; [now left|].
  cbn [stored pending]. rewrite app_assoc. intros I.
  apply in_app_or in I as [I|[<-|[]]]; [now left|right].
  split; [|reflexivity]. intros Hin. apply has_url_In in Hin. congruence.
Qed.

Lemma insert_or_ignore_urls (db : database) (a : article) (u : string) :
  In u (map row_url (stored db ++ pending db)) ->
  In u (map row_url (stored (insert_or_ignore db a) ++ pending (insert_or_ignore db a))).
Proof.
  unfold insert_or_ignore.
  destruct (has_url (a_url a) (stored db ++ pending db)); [auto|].
  cbn [stored pending]. intros H. rewrite app_assoc, map_app.
  apply in_or_app. now left.
Qed.

(** The rows after [executemany]: the rows before, and for each new URL
    a row with the first tuple of the batch that carries it. *)
Lemma executemany_rows (buffer : list article) :
  forall db r,
    db_unique db ->
    In r (stored (executemany buffer db) ++ pending (executemany buffer db)) ->
    In r (stored db ++ pending db)
    \/ (~ In (row_url r) (map row_url (stored db ++ pending db))
        /\ first_with_url (row_url r) buffer = Some (row_article r)).
Proof.
  unfold executemany. induction buffer as [|a buffer IH]; intros db r U I; [now left|].
  cbn [fold_left] in I.
  destruct (insert_or_ignore_spec db a U) as (U1 & _ & _ & I1).
  destruct (IH _ r U1 I) as [Hr|[N F]].
  - destruct (insert_or_ignore_rows db a r Hr) as [Hr'|[N E]]; [now left|right].
    assert (row_url r = a_url a) as Eu by (unfold row_url; now rewrite E).
    split; [now rewrite Eu|].
    unfold first_with_url. rewrite Eu, E. cbn [List.find].
    now rewrite String.eqb_refl.
  - right. split.
    + intros Hin. apply N. now apply insert_or_ignore_urls.
    + unfold first_with_url. cbn.
      destruct (String.eqb_spec (a_url a) (row_url r)) as [E|_]; [|exact F].
      exfalso. apply N. now rewrite <- E.
Qed.

Lemma executemany_urls (buffer : list article) :
  forall db u,
    In u (map row_url (stored db ++ pending db)) ->
    In u (map row_url (stored (executemany buffer db) ++ pending (executemany buffer db))).
Proof.
  unfold executemany. induction buffer as [|a buffer IH]; intros db u H; [exact H|].
  cbn [fold_left]. apply IH. now apply insert_or_ignore_urls.
Qed.

Lemma flush_rows (buffer : list article) (db : database) (r : row) :
  db_unique db ->
  In r (stored (commit (executemany buffer db))
        ++ pending (commit (executemany buffer db))) ->
  In r (stored db ++ pending db)
  \/ (~ In (row_url r) (map row_url (stored db ++ pending db))
      /\ first_with_url (row_url r) buffer = Some (row_article r)).
Proof.
  intros U I. cbn [commit stored pending] in I. rewrite app_nil_r in I.
  now apply executemany_rows.
Qed.

Lemma save_loop_rows (recs : list article) :
  forall buffer db r,
    db_unique db ->
    In r (stored (worker_db (save_loop (map Some recs ++ [None]) buffer db))) ->
    In r (stored db ++ pending db)
    \/ (~ In (row_url r) (map row_url (stored db ++ pending db))
        /\ first_with_url (row_url r) (buffer ++ recs) = Some (row_article r)).
Proof.
  induction recs as [|a recs IH]; intros buffer db r U I; cbn [map app save_loop] in I.
  - rewrite app_nil_r. destruct buffer as [|b buffer]; cbn [worker_db] in I.
    + left. apply in_or_app. now left.
    + apply (flush_rows (b :: buffer) db r U). apply in_or_app. now left.
  - destruct (10 <=? length (buffer ++ [a])).
    + destruct (flush_spec (buffer ++ [a]) db U) as (U1 & _ & _ & K1 & I1).
      cbv zeta in U1, K1, I1.
      destruct (IH [] _ r U1 I) as [Hr|[N F]].
      * destruct (flush_rows (buffer ++ [a]) db r U Hr) as [Hr'|[N F]]; [now left|right].
        split; [exact N|].
        replace (buffer ++ a :: recs) with ((buffer ++ [a]) ++ recs)
          by (now rewrite <- app_assoc).
        now rewrite first_with_url_app, F.
      * right. cbn [commit stored pending] in N. rewrite app_nil_r in N. split.
        -- intros Hin. apply N. now apply executemany_urls.
        -- replace (buffer ++ a :: recs) with ((buffer ++ [a]) ++ recs)
             by (now rewrite <- app_assoc).
           rewrite first_with_url_app, first_with_url_none; [exact F|].
           intros Hin. apply in_map_iff in Hin as (x & Ex & Hx).
           apply N. rewrite <- Ex.
           pose proof (I1 x Hx) as Hs. cbn [commit stored] in Hs. exact Hs.
    + destruct (IH (buffer ++ [a]) db r U I) as [Hr|[N F]]; [now left|right].
      split; [exact N|]. now rewrite <- app_assoc in F.
Qed.

(** X16.  Of several records with one URL the first wins.  Once the
    worker has returned, a committed row is either a row that the table
    held before, or a row for a URL that the table did not hold, and then
    it carries the first of the submitted records with this URL: title,
    phrase, count and date of a later record with the same URL are
    dropped, and a record whose URL the table held already changes
    nothing. *)
Theorem save_to_db_keeps_first_record (db : database) (recs : list article)
    (back : list (option article)) (r : row) :
  db_unique db ->
  In r (stored (worker_db (save_to_db db (map Some recs ++ None :: back)))) ->
  In r (stored db ++ pending db)
  \/ (~ In (row_url r) (map row_url (stored db ++ pending db))
      /\ first_with_url (row_url r) recs = Some (row_article r)).
Proof.
  intros U I. unfold save_to_db in I. rewrite save_loop_ignores_rest in I.
  exact (save_loop_rows recs [] db r U I).
Qed.

Lemma save_to_db_keeps_first_record_witness :
  In sample_row (stored empty_database ++ pending empty_database)
  \/ (~ In (row_url sample_row)
          (map row_url (stored empty_database ++ pending empty_database))
      /\ first_with_url (row_url sample_row) [sample_article; later_article]
         = Some (row_article sample_row)).
Proof.
  apply (save_to_db_keeps_first_record empty_database [sample_article; later_article]
           [] sample_row).
  - constructor.
  - vm_compute. now left.
Defined.

(** X17.  [main] stores nothing but what it has found.  When every link
    of the start sitemap has a text, [main] returns, and a committed row is
    then either a row of the file as it was, or the row of a URL that
    [main] reports, with the phrase of [main] and a count of at least one.
    When a link has no text [main] is left by [TypeError] with nothing put
    on the queue. *)
Theorem main_stores_only_found_articles (net : network) (file : option database)
    (w0 : world) (links : list (option string)) :
  (forall db, file = Some db -> db_unique db) ->
  get_sitemap_links net main_sitemap_url new_world = (Ret links, w0) ->
  (In None links -> main net file = (Raise TypeError, w0) /\ queue w0 = [])
  /\ (~ In None links ->
      exists articles db' w,
        main net file = (Ret (articles, Finished db'), w)
        /\ forall r,
            In r (stored db') ->
            (exists db, file = Some db /\ In r (stored db ++ pending db))
            \/ (In (row_url r) articles
                /\ a_phrase (row_article r) = main_phrase
                /\ 1 <= a_count (row_article r))).
Proof.
  intros H E0. pose proof (init_db_unique file H) as U.
  destruct (main_cases net file w0 links E0) as [Bad Good].
  split; [exact Bad|]. intros N.
  destruct (Good N) as (found & puts & w2 & db' & E & M & F & Fin).
  exists found, db', (put_end_of_stream w2). split; [exact E|].
  intros r Hr.
  assert (In r (stored (worker_db (save_loop (map Some puts ++ [None]) []
                                     (init_db file))))) as Hr'
      by (now rewrite Fin).
  destruct (save_loop_rows puts [] (init_db file) r U Hr') as [Old|[_ New]].
  - left. destruct file as [db|]; cbn in Old.
    + exists db. split; [reflexivity|]. now rewrite app_nil_r in Old.
    + destruct Old.
  - right. cbn [app] in New. unfold first_with_url in New.
    apply find_some in New as [In_puts Eu]. apply String.eqb_eq in Eu.
    rewrite List.Forall_forall in F. destruct (F _ In_puts) as [P C].
    split; [|split; [exact P|exact C]].
    subst found. unfold row_url. now apply in_map.
Qed.

Lemma main_stores_only_found_articles_witness :
  (forall db, @None database = Some db -> db_unique db)
  /\ get_sitemap_links net_site main_sitemap_url new_world
     = (Ret [Some child_2024; Some child_2025],
        snd (get_sitemap_links net_site main_sitemap_url new_world))
  /\ ~ In None [Some child_2024; Some child_2025]
  /\ exists db' w,
      main net_site None = (Ret ([sun_article], Finished db'), w)
      /\ Forall (fun r => row_url r = sun_article
                          /\ a_phrase (row_article r) = main_phrase
                          /\ 1 <= a_count (row_article r)) (stored db')
      /\ stored db' <> [].
Proof.
  assert (forall db, @None database = Some db -> db_unique db) as H
      by (intros db E; discriminate E).
  assert (get_sitemap_links net_site main_sitemap_url new_world
          = (Ret [Some child_2024; Some child_2025],
             snd (get_sitemap_links net_site main_sitemap_url new_world))) as E
      by (vm_compute; reflexivity).
  assert (~ In None [Some child_2024; Some child_2025]) as N
      by (intros [K|[K|[]]]; discriminate K).
  split; [exact H|]. split; [exact E|]. split; [exact N|].
  destruct (proj2 (main_stores_only_found_articles net_site None _ _ H E) N)
    as (articles & db' & w & M & Only).
  assert (exists n a, fst (main net_site None)
                      = Ret ([sun_article],
                             Finished {| stored := [{| row_id := n; row_article := a |}];
                                         pending := []; last_id := n |})) as (n & a & Fd)
      by (do 2 eexists; vm_compute; reflexivity).
  rewrite M in Fd. cbn [fst] in Fd. injection Fd as -> ->.
  eexists. exists w. split; [exact M|]. split; [|discriminate].
  apply List.Forall_forall. intros r Hr.
  destruct (Only r Hr) as [(db & Ed & _)|(Hu & P & C)]; [discriminate Ed|].
  split; [|split; [exact P|exact C]].
  destruct Hu as [Hu|[]]. now symmetry.
Defined.
